(** * useCanteenWagmi: the Canteen registry hook and its dashboard handlers

    A shallow embedding of

      packages/nextjs/hooks/canteen-example/useCanteenWagmi.tsx
      packages/nextjs/app/_components/CanteenDashboard.tsx (form handlers)

    The hook's [async] functions are written once, in the order of the
    source, in a small resumption monad [Async]: a computation either
    returns, throws, performs a synchronous action (a React state setter,
    [console.error], a fire-and-forget refetch) or is suspended at an
    [await] with its continuation.  Two interpreters run them:

    - [runWith] answers every [await] at once from a fixed outside world
      (one pass or one mutation taken in isolation);
    - [step] is the event loop: it keeps the suspended tasks of the page,
      resumes one task at a time and re-runs the [useEffect] bodies whose
      dependency arrays changed, so that overlapping passes and
      overlapping mutations can be traced. *)

From Stdlib Require Import ZArith QArith Ascii.
From stdpp Require Import base strings list gmap.

Local Open Scope Z_scope.
Local Open Scope string_scope.
Local Open Scope list_scope.

(** ** JavaScript values used by the hook *)

Module Js.

(** A thrown value.  Everything the hook catches is an [Error] object
    (wagmi/viem errors, [RangeError] from [BigInt]); [message] may be
    missing or empty on objects produced by other libraries. *)
Record Error := mkError { errName : string; errMessage : option string }.

(** A settled promise. *)
Inductive Settled (A : Type) : Type :=
| Fulfilled (a : A)
| Rejected (e : Error).
Arguments Fulfilled {A} a.
Arguments Rejected {A} e.

(** What an [async] function of the hook hands back to its caller. *)
Inductive Value :=
| Undefined
| Str (s : string).

(** A [number]: finite (a rational, here), [NaN] or an infinity. *)
Inductive Number :=
| Finite (q : Q)
| NaN
| Infinite (negative : bool).

Definition ofZ (z : Z) : Number := Finite (inject_Z z).

Definition isIntegral (q : Q) : bool := (Qnum q mod Z.pos (Qden q) =? 0)%Z.

(** The error [BigInt] throws on a number that is not an integer.  The
    engine's text names the number first; the fixed part is kept. *)
Definition rangeError : Error :=
  mkError "RangeError"
    (Some "The number cannot be converted to a BigInt because it is not an integer").

(** [BigInt(n)]: the integer itself, or a [RangeError] when [n] is not
    an integer. *)
Definition BigInt (n : Number) : Settled Z :=
  match n with
  | Finite q => if isIntegral q then Fulfilled (Qnum q / Z.pos (Qden q))%Z
                else Rejected rangeError
  | NaN | Infinite _ => Rejected rangeError
  end.

(** Truthiness of a string and of [bigint | undefined]. *)
Definition truthyString (s : string) : bool :=
  match s with EmptyString => false | _ => true end.

Definition truthyBigInt (n : option Z) : bool :=
  match n with Some z => negb (z =? 0)%Z | None => false end.

(** [o || d] for [o : string | undefined]. *)
Definition orElse (o : option string) (d : string) : string :=
  match o with
  | Some s => if truthyString s then s else d
  | None => d
  end.

(** [parseInt(s, 10)]: leading white space is skipped, one sign is
    accepted, then the longest run of decimal digits is read; [NaN]
    when that run is empty.  The value is the integer the digits spell,
    which is what JavaScript returns below 2^53 (above, JavaScript
    rounds to a double and this model does not).  White space is the
    ASCII white space. *)
Definition isSpace (c : Ascii.ascii) : bool :=
  let n := Ascii.nat_of_ascii c in
  ((n =? 32) || (n =? 9) || (n =? 10) || (n =? 11) || (n =? 12) || (n =? 13))%nat.

Definition digit (c : Ascii.ascii) : option Z :=
  let n := Ascii.nat_of_ascii c in
  if ((48 <=? n) && (n <=? 57))%nat then Some (Z.of_nat (n - 48)) else None.

Fixpoint skipSpaces (s : string) : string :=
  match s with
  | String c rest => if isSpace c then skipSpaces rest else s
  | EmptyString => s
  end.

(** The digits read so far are [acc]; [seen] records whether there was
    at least one. *)
Fixpoint readDigits (s : string) (seen : bool) (acc : Z) : option Z :=
  match s with
  | String c rest =>
      match digit c with
      | Some d => readDigits rest true (10 * acc + d)%Z
      | None => if seen then Some acc else None
      end
  | EmptyString => if seen then Some acc else None
  end.

Definition parseInt (s : string) : Number :=
  let s := skipSpaces s in
  let '(negative, body) :=
    match s with
    | String "-"%char rest => (true, rest)
    | String "+"%char rest => (false, rest)
    | _ => (false, s)
    end in
  match readDigits body false 0 with
  | Some z => ofZ (if negative then - z else z)%Z
  | None => NaN
  end.

End Js.

(** ** Data of the registry and of the page *)

(** [getMemberDetails] returns [(imageName, active, encryptedMemory)]. *)
Definition MemberDetails : Type := string * bool * list Byte.byte.

(** [getImageDetails] returns [(replicas, deployed, active)]. *)
Definition ImageDetails : Type := Z * Z * bool.

(** An element of [images]: the object literal pushed by [fetchImages]. *)
Record Image := mkImage {
  name : string;
  replicas : Z;
  deployed : Z;
  active : bool
}.

(** Arguments of a contract write.  [ABytes] is an opaque byte blob, the
    form in which the encryption collaborator hands over ciphertext. *)
Inductive AbiValue :=
| AString (s : string)
| ABigInt (z : Z)
| ABytes (b : list Byte.byte).

Record ContractInfo := mkContract { address : string; abi : string }.

Record WriteRequest := mkWrite {
  wAddress : string;
  wAbi : string;
  functionName : string;
  args : list AbiValue
}.

(** Every promise the hook awaits. *)
Inductive Call :=
| ImportEthers
| Members (i : nat)
| GetMemberDetails (host : string)
| Images (i : nat)
| GetImageDetails (imageName : string)
| WriteContractAsync (req : WriteRequest).

Definition Result (c : Call) : Type :=
  match c with
  | ImportEthers => unit
  | Members _ => string
  | GetMemberDetails _ => MemberDetails
  | Images _ => string
  | GetImageDetails _ => ImageDetails
  | WriteContractAsync _ => string
  end.

(** The [useState] cells: five of the hook, three of the dashboard form. *)
Record State := mkState {
  message : string;
  isProcessing : bool;
  members : list string;
  images : list Image;
  refreshTrigger : nat;
  addImageName : string;
  addImageReplicas : string;
  removeImageName : string
}.

Definition initialState : State :=
  mkState "" false [] [] 0 "" "3" "".

(** Synchronous effects of the hook's code. *)
Inductive Action :=
| SetMessage (s : string)
| SetIsProcessing (b : bool)
| SetMembers (l : list string)
| SetImages (l : list Image)
| SetRefreshTrigger (f : nat → nat)
| RefetchImagesCount
| ConsoleError (label : string)
| SetAddImageName (s : string)
| SetAddImageReplicas (s : string)
| SetRemoveImageName (s : string).

Definition apply (a : Action) (s : State) : State :=
  match a with
  | SetMessage m =>
      mkState m (isProcessing s) (members s) (images s) (refreshTrigger s)
        (addImageName s) (addImageReplicas s) (removeImageName s)
  | SetIsProcessing b =>
      mkState (message s) b (members s) (images s) (refreshTrigger s)
        (addImageName s) (addImageReplicas s) (removeImageName s)
  | SetMembers l =>
      mkState (message s) (isProcessing s) l (images s) (refreshTrigger s)
        (addImageName s) (addImageReplicas s) (removeImageName s)
  | SetImages l =>
      mkState (message s) (isProcessing s) (members s) l (refreshTrigger s)
        (addImageName s) (addImageReplicas s) (removeImageName s)
  | SetRefreshTrigger f =>
      mkState (message s) (isProcessing s) (members s) (images s)
        (f (refreshTrigger s))
        (addImageName s) (addImageReplicas s) (removeImageName s)
  | RefetchImagesCount | ConsoleError _ => s
  | SetAddImageName n =>
      mkState (message s) (isProcessing s) (members s) (images s) (refreshTrigger s)
        n (addImageReplicas s) (removeImageName s)
  | SetAddImageReplicas n =>
      mkState (message s) (isProcessing s) (members s) (images s) (refreshTrigger s)
        (addImageName s) n (removeImageName s)
  | SetRemoveImageName n =>
      mkState (message s) (isProcessing s) (members s) (images s) (refreshTrigger s)
        (addImageName s) (addImageReplicas s) n
  end.

(** What the outside can observe of a run, oldest first. *)
Inductive Effect :=
| Invoked (c : Call)
| CountRefetched
| Logged (label : string).

Definition emit (a : Action) : list Effect :=
  match a with
  | RefetchImagesCount => [CountRefetched]
  | ConsoleError l => [Logged l]
  | _ => []
  end.

(** ** The resumption monad *)

Inductive Async (A : Type) : Type :=
| Ret (a : A)
| Throw (e : Js.Error)
| Act (a : Action) (k : Async A)
| Await (c : Call) (k : Js.Settled (Result c) → Async A).
Arguments Ret {A} a.
Arguments Throw {A} e.
Arguments Act {A} a k.
Arguments Await {A} c k.

Fixpoint bind {A B} (m : Async A) (f : A → Async B) : Async B :=
  match m with
  | Ret a => f a
  | Throw e => Throw e
  | Act a k => Act a (bind k f)
  | Await c k => Await c (λ r, bind (k r) f)
  end.

Declare Scope async_scope.
Delimit Scope async_scope with async.
Bind Scope async_scope with Async.
Notation "x ← y ; z" := (bind y (λ x, z))
  (at level 20, y at level 100, z at level 200, only parsing) : async_scope.
Notation "x ;; z" := (bind x (λ _, z))
  (at level 100, z at level 200, only parsing, right associativity) : async_scope.
Local Open Scope async_scope.

(** [await p]: a rejected promise is rethrown at the [await]. *)
Definition await (c : Call) : Async (Result c) :=
  Await c (λ r, match r with
                | Js.Fulfilled v => Ret v
                | Js.Rejected e => Throw e
                end).

Definition act (a : Action) : Async unit := Act a (Ret tt).

(** A synchronous expression that may throw. *)
Definition eval {A} (r : Js.Settled A) : Async A :=
  match r with
  | Js.Fulfilled v => Ret v
  | Js.Rejected e => Throw e
  end.

(** [try { m } catch (error) { h error }] *)
Fixpoint tryCatch {A} (m : Async A) (h : Js.Error → Async A) : Async A :=
  match m with
  | Ret a => Ret a
  | Throw e => h e
  | Act a k => Act a (tryCatch k h)
  | Await c k => Await c (λ r, tryCatch (k r) h)
  end.

(** [try { m } finally { f }]: [f] runs on both exits and the completion
    of [m] stands unless [f] itself throws. *)
Fixpoint tryFinally {A} (m : Async A) (f : Async unit) : Async A :=
  match m with
  | Ret a => bind f (λ _, Ret a)
  | Throw e => bind f (λ _, Throw e)
  | Act a k => Act a (tryFinally k f)
  | Await c k => Await c (λ r, tryFinally (k r) f)
  end.

(** ** What the other hooks hand to [useCanteenWagmi] on a render *)

(** Modelled from the spec: the encryption collaborator ([useFHEEncryption]
    of @fhevm-sdk, not part of this repository's sources) supplies
    ciphertext for a numeric value as an opaque byte blob. *)
Record EncryptionContext := mkEncryption {
  canEncrypt : bool;
  encryptWith : Z → list Byte.byte
}.

Record Env := mkEnv {
  canteenContract : option ContractInfo;      (* useDeployedContractInfo *)
  membersCount : option Z;                    (* useReadContract, bigint | undefined *)
  imagesCount : option Z;
  ethersReadonlyProvider : option nat;        (* useWagmiEthers *)
  writeContractAsync : bool;                  (* useWriteContract supplied it *)
  encryptionContext : EncryptionContext
}.

(** ** The hook's functions, in source order *)

(** The body of [for (let i = 0; i < count; i++)] in [fetchMembers]: one
    [try]/[catch].  [membersList.push] is the last statement of the [try]
    block, so the [catch] path leaves the list as it was.  The label of
    [console.error] is kept without the index it interpolates. *)
Definition membersTurn (i : nat) (membersList : list string) : Async (list string) :=
  tryCatch
    (memberHost ← await (Members i);
     memberDetails ← await (GetMemberDetails memberHost);
     let isActive := memberDetails.1.2 in
     if isActive then Ret (membersList ++ [memberHost]) else Ret membersList)
    (λ error, act (ConsoleError "Error fetching member");; Ret membersList).

(** The loop itself; [remaining] is [count - i]. *)
Fixpoint membersLoop (remaining i : nat) (membersList : list string)
  : Async (list string) :=
  match remaining with
  | O => Ret membersList
  | S remaining' =>
      membersList' ← membersTurn i membersList;
      membersLoop remaining' (S i) membersList'
  end.

(** [fetchMembers], from [const membersList = []] on: [count] is
    [Number(membersCount)], exact for counts below 2^53. *)
Definition reconcileMembers (count : nat) : Async Js.Value :=
  let membersList := [] in
  await ImportEthers;;
  membersList ← membersLoop count 0 membersList;
  act (SetMembers membersList);;
  Ret Js.Undefined.

Definition fetchMembers (env : Env) : Async Js.Value :=
  match canteenContract env, membersCount env, ethersReadonlyProvider env with
  | Some _, Some n, Some _ =>
      if Js.truthyBigInt (Some n) then reconcileMembers (Z.to_nat n)
      else Ret Js.Undefined
  | _, _, _ => Ret Js.Undefined
  end.

(** One turn of the image loop.  [Number(imageDetails[0])] is kept as
    the exact integer: a double rounds it from 2^53 on. *)
Definition imagesTurn (i : nat) (imagesList : list Image) : Async (list Image) :=
  tryCatch
    (imageName ← await (Images i);
     imageDetails ← await (GetImageDetails imageName);
     let isActive := imageDetails.2 in
     if isActive
     then Ret (imagesList ++
                 [mkImage imageName imageDetails.1.1 imageDetails.1.2 true])
     else Ret imagesList)
    (λ error, act (ConsoleError "Error fetching image");; Ret imagesList).

Fixpoint imagesLoop (remaining i : nat) (imagesList : list Image)
  : Async (list Image) :=
  match remaining with
  | O => Ret imagesList
  | S remaining' =>
      imagesList' ← imagesTurn i imagesList;
      imagesLoop remaining' (S i) imagesList'
  end.

Definition reconcileImages (count : nat) : Async Js.Value :=
  let imagesList := [] in
  await ImportEthers;;
  imagesList ← imagesLoop count 0 imagesList;
  act (SetImages imagesList);;
  Ret Js.Undefined.

Definition fetchImages (env : Env) : Async Js.Value :=
  match canteenContract env, imagesCount env, ethersReadonlyProvider env with
  | Some _, Some n, Some _ =>
      if Js.truthyBigInt (Some n) then reconcileImages (Z.to_nat n)
      else Ret Js.Undefined
  | _, _, _ => Ret Js.Undefined
  end.

(** Modelled from the spec: the names of the registry's notifications (the
    contract's ABI is not part of this repository's sources). *)
Inductive EventName := MemberAdded | MemberRemoved | ImageAdded | ImageRemoved.

(** The two [useWatchContractEvent] subscriptions: [onLogs] of the
    subscription to [eventName], if the hook has one. *)
Definition onLogs (eventName : EventName) : option (Async unit) :=
  match eventName with
  | ImageAdded =>
      Some (act (SetRefreshTrigger (λ prev, prev + 1)%nat);; act RefetchImagesCount)
  | ImageRemoved =>
      Some (act (SetRefreshTrigger (λ prev, prev + 1)%nat);; act RefetchImagesCount)
  | MemberAdded | MemberRemoved => None
  end.

Definition addImage (env : Env) (imageName : string) (numReplicas : Js.Number)
  : Async Js.Value :=
  match canteenContract env, writeContractAsync env with
  | Some canteen, true =>
      act (SetIsProcessing true);;
      act (SetMessage "Adding image...");;
      tryFinally
        (tryCatch
           (replicas ← eval (Js.BigInt numReplicas);
            tx ← await (WriteContractAsync
                          (mkWrite (address canteen) (abi canteen) "addImage"
                             [AString imageName; ABigInt replicas]));
            act (SetMessage ("Image added! Tx: " +:+ tx));;
            act (SetRefreshTrigger (λ prev, prev + 1)%nat);;
            act RefetchImagesCount)
           (λ error,
              act (ConsoleError "Error adding image:");;
              act (SetMessage
                     ("Error: " +:+ Js.orElse (Js.errMessage error) "Failed to add image"))))
        (act (SetIsProcessing false));;
      Ret Js.Undefined
  | _, _ =>
      act (SetMessage "Contract not available");;
      Ret Js.Undefined
  end.

Definition removeImage (env : Env) (imageName : string) : Async Js.Value :=
  match canteenContract env, writeContractAsync env with
  | Some canteen, true =>
      act (SetIsProcessing true);;
      act (SetMessage "Removing image...");;
      tryFinally
        (tryCatch
           (tx ← await (WriteContractAsync
                          (mkWrite (address canteen) (abi canteen) "removeImage"
                             [AString imageName]));
            act (SetMessage ("Image removed! Tx: " +:+ tx));;
            act (SetRefreshTrigger (λ prev, prev + 1)%nat);;
            act RefetchImagesCount)
           (λ error,
              act (ConsoleError "Error removing image:");;
              act (SetMessage
                     ("Error: " +:+ Js.orElse (Js.errMessage error) "Failed to remove image"))))
        (act (SetIsProcessing false));;
      Ret Js.Undefined
  | _, _ =>
      act (SetMessage "Contract not available");;
      Ret Js.Undefined
  end.

(** [refresh: () => setRefreshTrigger(prev => prev + 1)] *)
Definition refresh : Async unit := act (SetRefreshTrigger (λ prev, prev + 1)%nat).

(** The view returned by the hook: the counts are lengths of the
    filtered lists. *)
Definition viewMembersCount (s : State) : nat := length (members s).
Definition viewImagesCount (s : State) : nat := length (images s).

(** ** The dashboard's form handlers *)

Definition handleAddImage (env : Env) (s : State) : Async Js.Value :=
  if negb (Js.truthyString (addImageName s)) || negb (Js.truthyString (addImageReplicas s))
  then Ret Js.Undefined
  else
    addImage env (addImageName s) (Js.parseInt (addImageReplicas s));;
    act (SetAddImageName "");;
    act (SetAddImageReplicas "3");;
    Ret Js.Undefined.

Definition handleRemoveImage (env : Env) (s : State) : Async Js.Value :=
  if negb (Js.truthyString (removeImageName s))
  then Ret Js.Undefined
  else
    removeImage env (removeImageName s);;
    act (SetRemoveImageName "");;
    Ret Js.Undefined.

(** [disabled=] of the two submit buttons. *)
Definition addButtonDisabled (s : State) : bool :=
  isProcessing s || negb (Js.truthyString (addImageName s))
  || negb (Js.truthyString (addImageReplicas s)).

Definition removeButtonDisabled (s : State) : bool :=
  isProcessing s || negb (Js.truthyString (removeImageName s)).

(** ** The outside world *)

(** How the promises settle: the registry as seen through the ethers
    contract object, the dynamic import and the wallet's write. *)
Record Outside := mkOutside {
  importEthers : Js.Settled unit;
  contractMembers : nat → Js.Settled string;
  contractGetMemberDetails : string → Js.Settled MemberDetails;
  contractImages : nat → Js.Settled string;
  contractGetImageDetails : string → Js.Settled ImageDetails;
  walletWrite : WriteRequest → Js.Settled string
}.

Definition respond (o : Outside) (c : Call) : Js.Settled (Result c) :=
  match c with
  | ImportEthers => importEthers o
  | Members i => contractMembers o i
  | GetMemberDetails host => contractGetMemberDetails o host
  | Images i => contractImages o i
  | GetImageDetails imageName => contractGetImageDetails o imageName
  | WriteContractAsync req => walletWrite o req
  end.

(** ** Running one function in isolation *)

(** The state after the run, the effects in order, and how the promise
    returned by the [async] function settles. *)
Record Outcome (A : Type) := mkOutcome {
  final : State;
  effects : list Effect;
  settled : Js.Settled A
}.
Arguments mkOutcome {A} final effects settled.
Arguments final {A} o.
Arguments effects {A} o.
Arguments settled {A} o.

Fixpoint runWith {A} (o : Outside) (m : Async A) (s : State) (tr : list Effect)
  : Outcome A :=
  match m with
  | Ret a => mkOutcome s tr (Js.Fulfilled a)
  | Throw e => mkOutcome s tr (Js.Rejected e)
  | Act a k => runWith o k (apply a s) (tr ++ emit a)
  | Await c k => runWith o (k (respond o c)) s (tr ++ [Invoked c])
  end.

(** The contract writes among the effects. *)
Definition writesOf (tr : list Effect) : list WriteRequest :=
  omap (λ e, match e with Invoked (WriteContractAsync req) => Some req | _ => None end) tr.

(** ** What a pass is expected to publish *)

(** Index [i] contributes its key when both of its fetches succeed and
    the entry is active. *)
Definition activeMemberAt (o : Outside) (i : nat) : option string :=
  match contractMembers o i with
  | Js.Fulfilled host =>
      match contractGetMemberDetails o host with
      | Js.Fulfilled details => if details.1.2 then Some host else None
      | Js.Rejected _ => None
      end
  | Js.Rejected _ => None
  end.

Definition activeImageAt (o : Outside) (i : nat) : option Image :=
  match contractImages o i with
  | Js.Fulfilled imageName =>
      match contractGetImageDetails o imageName with
      | Js.Fulfilled details =>
          if details.2 then Some (mkImage imageName details.1.1 details.1.2 true)
          else None
      | Js.Rejected _ => None
      end
  | Js.Rejected _ => None
  end.

(** The active entries among the indices of [[0, count)], in index order. *)
Definition activeMembers (o : Outside) (count : nat) : list string :=
  omap (activeMemberAt o) (seq 0 count).

Definition activeImages (o : Outside) (count : nat) : list Image :=
  omap (activeImageAt o) (seq 0 count).

(** The write requests the two mutations are expected to issue. *)
Definition addRequest (c : ContractInfo) (imageName : string) (z : Z) : WriteRequest :=
  mkWrite (address c) (abi c) "addImage" [AString imageName; ABigInt z].

Definition removeRequest (c : ContractInfo) (imageName : string) : WriteRequest :=
  mkWrite (address c) (abi c) "removeImage" [AString imageName].

(** ** The event loop of the page *)

(** Which function a suspended promise belongs to. *)
Inductive Origin := FetchMembers | FetchImages | AddImage | RemoveImage | Handler.

(** An [async] call suspended at an [await].  [startedAt] is the value of
    [refreshTrigger] when the function was called: the code keeps no such
    stamp, it is recorded here only to state properties. *)
Record Task := mkTask {
  origin : Origin;
  startedAt : nat;
  pending : Call;
  resume : Js.Settled (Result pending) → Async Js.Value
}.

Record World := mkWorld {
  env : Env;
  ui : State;
  tasks : gmap nat Task;
  nextId : nat;
  trace : list Effect;
  returned : gmap nat (Js.Settled Js.Value)
}.

(** Where a run stops: at the end of the function or at its next [await]. *)
Inductive Paused (A : Type) : Type :=
| Finished (r : Js.Settled A)
| Suspended (c : Call) (k : Js.Settled (Result c) → Async A).
Arguments Finished {A} r.
Arguments Suspended {A} c k.

(** Runs the synchronous stretch of [m]. *)
Fixpoint exec {A} (m : Async A) (s : State) (tr : list Effect)
  : State * list Effect * Paused A :=
  match m with
  | Ret a => (s, tr, Finished (Js.Fulfilled a))
  | Throw e => (s, tr, Finished (Js.Rejected e))
  | Act a k => exec k (apply a s) (tr ++ emit a)
  | Await c k => (s, tr ++ [Invoked c], Suspended c k)
  end.

(** Runs task [id] from [m] until it stops again. *)
Definition advance (id : nat) (from : Origin) (stamp : nat) (m : Async Js.Value)
    (w : World) : World :=
  let '(s, tr, p) := exec m (ui w) (trace w) in
  match p with
  | Finished r =>
      mkWorld (env w) s (delete id (tasks w)) (nextId w) tr (<[id := r]> (returned w))
  | Suspended c k =>
      mkWorld (env w) s (<[id := mkTask from stamp c k]> (tasks w)) (nextId w) tr
        (returned w)
  end.

(** A call of one of the functions: it gets the next task number. *)
Definition launch (from : Origin) (m : Async Js.Value) (w : World) : World :=
  let id := nextId w in
  advance id from (refreshTrigger (ui w)) m
    (mkWorld (env w) (ui w) (tasks w) (S id) (trace w) (returned w)).

#[global] Instance ContractInfo_eq_dec : EqDecision ContractInfo.
Proof. solve_decision. Defined.

(** The dependency arrays of the two [useEffect] calls. *)
Definition membersDeps (e : Env) (s : State) :=
  (canteenContract e, membersCount e, refreshTrigger s, ethersReadonlyProvider e).

Definition imagesDeps (e : Env) (s : State) :=
  (canteenContract e, imagesCount e, ethersReadonlyProvider e, refreshTrigger s).

(** After a render, each effect whose dependencies changed runs again.
    Every event is followed by one render; the dependencies are compared
    by value, where React compares objects by identity. *)
Definition runEffects (e0 : Env) (s0 : State) (w : World) : World :=
  let w1 :=
    if decide (membersDeps e0 s0 = membersDeps (env w) (ui w)) then w
    else launch FetchMembers (fetchMembers (env w)) w in
  if decide (imagesDeps e0 s0 = imagesDeps (env w1) (ui w1)) then w1
  else launch FetchImages (fetchImages (env w1)) w1.

(** On mount both effects run. *)
Definition mount (e : Env) (s : State) : World :=
  let w := mkWorld e s ∅ 0 [] ∅ in
  let w := launch FetchMembers (fetchMembers e) w in
  launch FetchImages (fetchImages e) w.

Inductive Event :=
| Settle (id : nat) (o : Outside)      (* the promise task [id] awaits settles *)
| Notify (eventName : EventName)       (* the registry emitted a log *)
| CallRefresh
| CallAddImage (imageName : string) (numReplicas : Js.Number)
| CallRemoveImage (imageName : string)
| SubmitAddForm
| SubmitRemoveForm
| Rerender (e : Env).                  (* the other hooks deliver new values *)

Definition handle (ev : Event) (w : World) : World :=
  match ev with
  | Settle id o =>
      match tasks w !! id with
      | Some t => advance id (origin t) (startedAt t) (resume t (respond o (pending t))) w
      | None => w
      end
  | Notify eventName =>
      match onLogs eventName with
      | Some h => launch Handler (h;; Ret Js.Undefined) w
      | None => w
      end
  | CallRefresh => launch Handler (refresh;; Ret Js.Undefined) w
  | CallAddImage imageName numReplicas =>
      launch AddImage (addImage (env w) imageName numReplicas) w
  | CallRemoveImage imageName => launch RemoveImage (removeImage (env w) imageName) w
  | SubmitAddForm => launch Handler (handleAddImage (env w) (ui w)) w
  | SubmitRemoveForm => launch Handler (handleRemoveImage (env w) (ui w)) w
  | Rerender e => mkWorld e (ui w) (tasks w) (nextId w) (trace w) (returned w)
  end.

Definition step (ev : Event) (w : World) : World :=
  runEffects (env w) (ui w) (handle ev w).

Definition run (evs : list Event) (w : World) : World :=
  foldl (λ w ev, step ev w) w evs.

(** ** Sample registries *)

Module Sample.

Definition canteen : ContractInfo :=
  mkContract "0x5FbDB2315678afecb367f032d93F642f64180aa3" "Canteen".

(** An encryption collaborator that is ready and returns some blob. *)
Definition encryption : EncryptionContext :=
  mkEncryption true (λ z, [Byte.xc0; Byte.xde]).

Definition envOf (nMembers nImages : option Z) : Env :=
  mkEnv (Some canteen) nMembers nImages (Some 1%nat) true encryption.

Definition transportError : Js.Error :=
  Js.mkError "HttpRequestError" (Some "HTTP request failed.").

Definition hostAt (i : nat) : Js.Settled string :=
  match i with
  | 0%nat => Js.Fulfilled "node-a"
  | 1%nat => Js.Fulfilled "node-b"
  | 2%nat => Js.Fulfilled "node-c"
  | _ => Js.Rejected transportError
  end.

Definition imageAt (i : nat) : Js.Settled string :=
  match i with
  | 0%nat => Js.Fulfilled "nginx"
  | 1%nat => Js.Fulfilled "redis"
  | 2%nat => Js.Fulfilled "postgres"
  | _ => Js.Rejected transportError
  end.

(** Three members and three images; the middle one of each is
    inactive.  The wallet confirms every write. *)
Definition registry : Outside :=
  mkOutside (Js.Fulfilled ())
    hostAt
    (λ host, Js.Fulfilled ("nginx", negb (String.eqb host "node-b"), []))
    imageAt
    (λ imageName, Js.Fulfilled (3, 1, negb (String.eqb imageName "redis")))
    (λ req, Js.Fulfilled "0x9f3c").

(** The same registry before and after [node-a] was deactivated, with
    [node-b] active in both. *)
Definition before : Outside :=
  mkOutside (Js.Fulfilled ()) hostAt
    (λ host, Js.Fulfilled ("nginx", true, []))
    imageAt
    (λ imageName, Js.Fulfilled (3, 1, true))
    (λ req, Js.Fulfilled "0x9f3c").

Definition after : Outside :=
  mkOutside (Js.Fulfilled ()) hostAt
    (λ host, Js.Fulfilled ("nginx", negb (String.eqb host "node-a"), []))
    imageAt
    (λ imageName, Js.Fulfilled (3, 1, negb (String.eqb imageName "nginx")))
    (λ req, Js.Fulfilled "0x9f3c").

(** A wallet whose writes fail in transport. *)
Definition offline : Outside :=
  mkOutside (Js.Fulfilled ()) hostAt
    (λ host, Js.Fulfilled ("nginx", true, []))
    imageAt
    (λ imageName, Js.Fulfilled (3, 1, true))
    (λ req, Js.Rejected transportError).

End Sample.

(** ** Measures used to relate the two interpreters *)

(** [m] never writes [refreshTrigger]: running it cannot re-trigger an
    effect. *)
Fixpoint quiet {A} (m : Async A) : Prop :=
  match m with
  | Ret _ | Throw _ => True
  | Act a k => (∀ f, a ≠ SetRefreshTrigger f) ∧ quiet k
  | Await c k => ∀ r, quiet (k r)
  end.

(** The number of [await]s [m] goes through when [o] answers them. *)
Fixpoint awaits {A} (o : Outside) (m : Async A) : nat :=
  match m with
  | Ret _ | Throw _ => O
  | Act _ k => awaits o k
  | Await c k => S (awaits o (k (respond o c)))
  end.

(** The world once task [id] has run to its end with outcome [r]. *)
Definition finishWith (id : nat) (r : Outcome Js.Value) (w : World) : World :=
  mkWorld (env w) (final r) (delete id (tasks w)) (nextId w) (effects r)
    (<[id := settled r]> (returned w)).

(** The world right after a handler that only bumps [refreshTrigger] ran
    as task [nextId w], before the effects run again. *)
Definition bumped (w : World) : World :=
  mkWorld (env w) (apply (SetRefreshTrigger (λ prev, prev + 1)%nat) (ui w))
    (delete (nextId w) (tasks w)) (S (nextId w)) (trace w)
    (<[nextId w := Js.Fulfilled Js.Undefined]> (returned w)).

(** ** Predicates on the code, for the invariants of the event loop *)

(** Every action [m] can perform satisfies [P], every promise it can
    await satisfies [C] and every value it can return satisfies [Q]. *)
Fixpoint obeys {A} (P : Action → Prop) (C : Call → Prop) (Q : A → Prop)
    (m : Async A) : Prop :=
  match m with
  | Ret a => Q a
  | Throw _ => True
  | Act a k => P a ∧ obeys P C Q k
  | Await c k => C c ∧ ∀ r, obeys P C Q (k r)
  end.

Definition anyCall (c : Call) : Prop := True.
Definition anyValue {A} (a : A) : Prop := True.

(** What the state setters are given throughout the two files: a message
    is never the empty string, [refreshTrigger] is only ever incremented,
    and a published image carries [active: true]. *)
Definition tame (a : Action) : Prop :=
  match a with
  | SetMessage s => s ≠ ""
  | SetRefreshTrigger f => ∀ n, f n = S n
  | SetImages l => Forall (λ img, active img = true) l
  | _ => True
  end.

(** All suspended tasks are made of tame code. *)
Definition tameWorld (w : World) : Prop :=
  ∀ id t r, tasks w !! id = Some t → obeys tame anyCall anyValue (resume t r).

(** What tame code can do to the state. *)
Definition follows (s s' : State) : Prop :=
  (refreshTrigger s ≤ refreshTrigger s')%nat
  ∧ (message s ≠ "" → message s' ≠ "")
  ∧ (Forall (λ img, active img = true) (images s) →
     Forall (λ img, active img = true) (images s')).

(** Task numbers from [nextId] on are unused. *)
Definition fresh (w : World) : Prop :=
  ∀ id, (nextId w ≤ id)%nat → tasks w !! id = None.

(** ** What a pass is expected to ask the registry *)

(** The effects of the loop's turn for index [i]: the key is asked for;
    the details are asked for only when the key came; a failure of either
    is logged once. *)
Definition memberTurnEffects (o : Outside) (i : nat) : list Effect :=
  Invoked (Members i) ::
  match contractMembers o i with
  | Js.Fulfilled host =>
      Invoked (GetMemberDetails host) ::
      match contractGetMemberDetails o host with
      | Js.Fulfilled _ => []
      | Js.Rejected _ => [Logged "Error fetching member"]
      end
  | Js.Rejected _ => [Logged "Error fetching member"]
  end.

Definition imageTurnEffects (o : Outside) (i : nat) : list Effect :=
  Invoked (Images i) ::
  match contractImages o i with
  | Js.Fulfilled imageName =>
      Invoked (GetImageDetails imageName) ::
      match contractGetImageDetails o imageName with
      | Js.Fulfilled _ => []
      | Js.Rejected _ => [Logged "Error fetching image"]
      end
  | Js.Rejected _ => [Logged "Error fetching image"]
  end.

(** ** The page as its user drives it *)

(** The three [onChange] handlers of the dashboard's inputs. *)
Inductive FormInput :=
| AddImageNameInput (value : string)
| AddImageReplicasInput (value : string)
| RemoveImageNameInput (value : string).

Definition onChange (i : FormInput) : Action :=
  match i with
  | AddImageNameInput value => SetAddImageName value
  | AddImageReplicasInput value => SetAddImageReplicas value
  | RemoveImageNameInput value => SetRemoveImageName value
  end.

(** An event of the hook, or a keystroke in one of the inputs. *)
Inductive PageEvent :=
| Hook (ev : Event)
| Input (i : FormInput).

Definition pageStep (pe : PageEvent) (w : World) : World :=
  match pe with
  | Hook ev => step ev w
  | Input i =>
      mkWorld (env w) (apply (onChange i) (ui w)) (tasks w) (nextId w) (trace w)
        (returned w)
  end.

Definition pageRun (pes : list PageEvent) (w : World) : World :=
  foldl (λ w pe, pageStep pe w) w pes.

(** What the rendered page lets through: [addImage] and [removeImage] are
    reached through the two forms only, a form is submitted only while
    its button is not [disabled], and an input takes keystrokes only
    while it is not [disabled].  The [min] and [max] of the replica
    input are not modelled: any text may be typed. *)
Definition allowed (w : World) (pe : PageEvent) : bool :=
  match pe with
  | Hook (CallAddImage _ _) | Hook (CallRemoveImage _) => false
  | Hook SubmitAddForm => negb (addButtonDisabled (ui w))
  | Hook SubmitRemoveForm => negb (removeButtonDisabled (ui w))
  | Hook _ => true
  | Input _ => negb (isProcessing (ui w))
  end.

Fixpoint allAllowed (pes : list PageEvent) (w : World) : Prop :=
  match pes with
  | [] => True
  | pe :: pes' => allowed w pe = true ∧ allAllowed pes' (pageStep pe w)
  end.

Definition isWrite (c : Call) : bool :=
  match c with WriteContractAsync _ => true | _ => false end.

(** Task [id] is suspended on a registry write. *)
Definition writing (w : World) (id : nat) : Prop :=
  ∃ t, tasks w !! id = Some t ∧ isWrite (pending t) = true.

(** Code that never sets [isProcessing] and never awaits the wallet. *)
Definition reads {A} (m : Async A) : Prop :=
  obeys (λ a, ∀ b, a ≠ SetIsProcessing b) (λ c, isWrite c = false) anyValue m.

(** Code that runs to its end without another [await] and leaves
    [isProcessing] false. *)
Definition releases {A} (m : Async A) : Prop :=
  ∀ s tr, ∃ s' tr' r, exec m s tr = (s', tr', Finished r) ∧ isProcessing s' = false.

(** The single-slot discipline of the page. *)
Definition gate (w : World) : Prop :=
  fresh w
  ∧ (∀ id t, tasks w !! id = Some t →
       if isWrite (pending t) then ∀ r, releases (resume t r)
       else ∀ r, reads (resume t r))
  ∧ (∀ id1 id2, writing w id1 → writing w id2 → id1 = id2)
  ∧ (isProcessing (ui w) = true ↔ ∃ id, writing w id).

(** ** The model on small inputs *)

Example parseInt_digits : Js.parseInt "3" = Js.ofZ 3.
Proof. reflexivity. Qed.

Example parseInt_stops_at_first_non_digit : Js.parseInt "  -12abc" = Js.ofZ (-12).
Proof. reflexivity. Qed.

Example parseInt_without_digits : Js.parseInt "abc" = Js.NaN.
Proof. reflexivity. Qed.

Example BigInt_of_fraction : Js.BigInt (Js.Finite (3 # 2)) = Js.Rejected Js.rangeError.
Proof. reflexivity. Qed.

Example BigInt_of_negative_zero : Js.BigInt (Js.Finite (-0 # 1)) = Js.Fulfilled 0%Z.
Proof. reflexivity. Qed.

(** Mounting a page whose counts are known suspends both passes at the
    import of ethers. *)
Example mount_starts_both_passes :
  let w := mount (Sample.envOf (Some 2%Z) (Some 2%Z)) initialState in
  (pending <$> tasks w !! 0%nat, pending <$> tasks w !! 1%nat, nextId w)
  = (Some ImportEthers, Some ImportEthers, 2%nat).
Proof. vm_compute. reflexivity. Qed.

(** An image is removed remotely: the notification bumps the generation,
    the count is requested again, and the next pass drops the image. *)
Example removed_image_disappears :
  let w1 := run (replicate 5 (Settle 1 Sample.before))
              (mount (Sample.envOf (Some 2%Z) (Some 2%Z)) initialState) in
  let w2 := step (Notify ImageRemoved) w1 in
  let w3 := run (replicate 5 (Settle 4 Sample.after)) w2 in
  name <$> images (ui w1) = ["nginx"; "redis"]
  ∧ refreshTrigger (ui w2) = 1%nat
  ∧ CountRefetched ∈ trace w2
  ∧ name <$> images (ui w3) = ["redis"].
Proof.
  vm_compute. repeat split. repeat constructor.
Qed.

(** A count that is not a number never reaches the wallet: the
    conversion throws inside the [try] block. *)
Example addImage_of_NaN :
  let r := runWith Sample.registry
             (addImage (Sample.envOf (Some 2%Z) (Some 2%Z)) "nginx" Js.NaN)
             initialState [] in
  writesOf (effects r) = []
  ∧ isProcessing (final r) = false
  ∧ settled r = Js.Fulfilled Js.Undefined.
Proof. vm_compute. repeat split. Qed.

(** ** Laws of the interpreter *)

Section RunWith.
Context (o : Outside).

Lemma runWith_bind {A B} (m : Async A) (f : A → Async B) s tr :
  runWith o (bind m f) s tr =
  let r := runWith o m s tr in
  match settled r with
  | Js.Fulfilled a => runWith o (f a) (final r) (effects r)
  | Js.Rejected e => mkOutcome (final r) (effects r) (Js.Rejected e)
  end.
Proof.
  revert s tr. induction m as [a|e|a k IH|c k IH]; intros s tr; simpl; auto.
Qed.

Lemma runWith_tryCatch {A} (m : Async A) (h : Js.Error → Async A) s tr :
  runWith o (tryCatch m h) s tr =
  let r := runWith o m s tr in
  match settled r with
  | Js.Fulfilled a => r
  | Js.Rejected e => runWith o (h e) (final r) (effects r)
  end.
Proof.
  revert s tr. induction m as [a|e|a k IH|c k IH]; intros s tr; simpl; auto.
Qed.

Lemma runWith_tryFinally {A} (m : Async A) (f : Async unit) s tr :
  runWith o (tryFinally m f) s tr =
  let r := runWith o m s tr in
  let r' := runWith o f (final r) (effects r) in
  match settled r' with
  | Js.Fulfilled _ => mkOutcome (final r') (effects r') (settled r)
  | Js.Rejected e => mkOutcome (final r') (effects r') (Js.Rejected e)
  end.
Proof.
  revert s tr. induction m as [a|e|a k IH|c k IH]; intros s tr; simpl; auto.
  - rewrite runWith_bind. simpl. destruct (settled (runWith o f s tr)); reflexivity.
  - rewrite runWith_bind. simpl. destruct (settled (runWith o f s tr)); reflexivity.
Qed.

End RunWith.

(** ** One pass taken in isolation *)

Section Pass.
Context (o : Outside).

Lemma writesOf_app tr tr' : writesOf (tr ++ tr') = writesOf tr ++ writesOf tr'.
Proof. apply omap_app. Qed.

(** One turn of the loop of [fetchMembers]: the list grows by the entry
    of index [i] when it is fetched and active, and the turn never
    throws. *)
Lemma membersTurn_run i acc s tr :
  ∃ tr',
    runWith o (membersTurn i acc) s tr
    = mkOutcome s tr' (Js.Fulfilled (acc ++ from_option (λ host, [host]) [] (activeMemberAt o i)))
    ∧ writesOf tr' = writesOf tr.
Proof.
  unfold activeMemberAt, membersTurn. cbn.
  destruct (contractMembers o i) as [host|e]; cbn.
  - destruct (contractGetMemberDetails o host) as [[[imageName isActive] mem]|e]; cbn.
    + destruct isActive; cbn; eexists; (split; [by rewrite ?app_nil_r|]).
      all: rewrite !writesOf_app; cbn; by rewrite ?app_nil_r.
    + eexists; split; [by rewrite app_nil_r|].
      rewrite !writesOf_app; cbn; by rewrite ?app_nil_r.
  - eexists; split; [by rewrite app_nil_r|].
    rewrite !writesOf_app; cbn; by rewrite ?app_nil_r.
Qed.

Lemma membersLoop_run n i acc s tr :
  ∃ tr',
    runWith o (membersLoop n i acc) s tr
    = mkOutcome s tr' (Js.Fulfilled (acc ++ omap (activeMemberAt o) (seq i n)))
    ∧ writesOf tr' = writesOf tr.
Proof.
  revert i acc tr. induction n as [|n IH]; intros i acc tr.
  - exists tr. cbn. by rewrite app_nil_r.
  - cbn [membersLoop]. rewrite runWith_bind.
    destruct (membersTurn_run i acc s tr) as (tr1 & -> & Hw1). cbn [settled final effects].
    destruct (IH (S i) (acc ++ from_option (λ host, [host]) [] (activeMemberAt o i)) tr1)
      as (tr2 & -> & Hw2).
    exists tr2. split; [|congruence].
    f_equal. f_equal. cbn [seq omap list_omap].
    destruct (activeMemberAt o i); cbn; by rewrite <- ?app_assoc, ?app_nil_r.
Qed.

Lemma imagesTurn_run i acc s tr :
  ∃ tr',
    runWith o (imagesTurn i acc) s tr
    = mkOutcome s tr' (Js.Fulfilled (acc ++ from_option (λ img, [img]) [] (activeImageAt o i)))
    ∧ writesOf tr' = writesOf tr.
Proof.
  unfold activeImageAt, imagesTurn. cbn.
  destruct (contractImages o i) as [imageName|e]; cbn.
  - destruct (contractGetImageDetails o imageName) as [[[r d] isActive]|e]; cbn.
    + destruct isActive; cbn; eexists; (split; [by rewrite ?app_nil_r|]).
      all: rewrite !writesOf_app; cbn; by rewrite ?app_nil_r.
    + eexists; split; [by rewrite app_nil_r|].
      rewrite !writesOf_app; cbn; by rewrite ?app_nil_r.
  - eexists; split; [by rewrite app_nil_r|].
    rewrite !writesOf_app; cbn; by rewrite ?app_nil_r.
Qed.

Lemma imagesLoop_run n i acc s tr :
  ∃ tr',
    runWith o (imagesLoop n i acc) s tr
    = mkOutcome s tr' (Js.Fulfilled (acc ++ omap (activeImageAt o) (seq i n)))
    ∧ writesOf tr' = writesOf tr.
Proof.
  revert i acc tr. induction n as [|n IH]; intros i acc tr.
  - exists tr. cbn. by rewrite app_nil_r.
  - cbn [imagesLoop]. rewrite runWith_bind.
    destruct (imagesTurn_run i acc s tr) as (tr1 & -> & Hw1). cbn [settled final effects].
    destruct (IH (S i) (acc ++ from_option (λ img, [img]) [] (activeImageAt o i)) tr1)
      as (tr2 & -> & Hw2).
    exists tr2. split; [|congruence].
    f_equal. f_equal. cbn [seq omap list_omap].
    destruct (activeImageAt o i); cbn; by rewrite <- ?app_assoc, ?app_nil_r.
Qed.
End Pass.

(** ** One mutation taken in isolation *)

Section Mutation.
Context (o : Outside).

Lemma addImage_run env imageName numReplicas s tr :
  runWith o (addImage env imageName numReplicas) s tr =
  match canteenContract env, writeContractAsync env with
  | Some c, true =>
      let s1 := apply (SetMessage "Adding image...") (apply (SetIsProcessing true) s) in
      match Js.BigInt numReplicas with
      | Js.Fulfilled z =>
          match walletWrite o (addRequest c imageName z) with
          | Js.Fulfilled tx =>
              mkOutcome
                (apply (SetIsProcessing false)
                   (apply (SetRefreshTrigger (λ prev, prev + 1)%nat)
                      (apply (SetMessage ("Image added! Tx: " +:+ tx)) s1)))
                (tr ++ [Invoked (WriteContractAsync (addRequest c imageName z));
                        CountRefetched])
                (Js.Fulfilled Js.Undefined)
          | Js.Rejected e =>
              mkOutcome
                (apply (SetIsProcessing false)
                   (apply (SetMessage
                             ("Error: " +:+ Js.orElse (Js.errMessage e) "Failed to add image"))
                      s1))
                (tr ++ [Invoked (WriteContractAsync (addRequest c imageName z));
                        Logged "Error adding image:"])
                (Js.Fulfilled Js.Undefined)
          end
      | Js.Rejected e =>
          mkOutcome
            (apply (SetIsProcessing false)
               (apply (SetMessage
                         ("Error: " +:+ Js.orElse (Js.errMessage e) "Failed to add image"))
                  s1))
            (tr ++ [Logged "Error adding image:"])
            (Js.Fulfilled Js.Undefined)
      end
  | _, _ =>
      mkOutcome (apply (SetMessage "Contract not available") s) tr
        (Js.Fulfilled Js.Undefined)
  end.
Proof.
  unfold addImage, addRequest.
  destruct (canteenContract env) as [c|]; [destruct (writeContractAsync env)|].
  - cbn -[String.append]. destruct (Js.BigInt numReplicas) as [z|e]; cbn -[String.append].
    + destruct (walletWrite o _) as [tx|e]; cbn -[String.append];
        by rewrite ?app_nil_r, <- ?app_assoc.
    + by rewrite ?app_nil_r, <- ?app_assoc.
  - cbn -[String.append]. by rewrite ?app_nil_r.
  - cbn -[String.append]. by rewrite ?app_nil_r.
Qed.
Lemma removeImage_run env imageName s tr :
  runWith o (removeImage env imageName) s tr =
  match canteenContract env, writeContractAsync env with
  | Some c, true =>
      let s1 := apply (SetMessage "Removing image...") (apply (SetIsProcessing true) s) in
      match walletWrite o (removeRequest c imageName) with
      | Js.Fulfilled tx =>
          mkOutcome
            (apply (SetIsProcessing false)
               (apply (SetRefreshTrigger (λ prev, prev + 1)%nat)
                  (apply (SetMessage ("Image removed! Tx: " +:+ tx)) s1)))
            (tr ++ [Invoked (WriteContractAsync (removeRequest c imageName));
                    CountRefetched])
            (Js.Fulfilled Js.Undefined)
      | Js.Rejected e =>
          mkOutcome
            (apply (SetIsProcessing false)
               (apply (SetMessage
                         ("Error: " +:+ Js.orElse (Js.errMessage e) "Failed to remove image"))
                  s1))
            (tr ++ [Invoked (WriteContractAsync (removeRequest c imageName));
                    Logged "Error removing image:"])
            (Js.Fulfilled Js.Undefined)
      end
  | _, _ =>
      mkOutcome (apply (SetMessage "Contract not available") s) tr
        (Js.Fulfilled Js.Undefined)
  end.
Proof.
  unfold removeImage, removeRequest.
  destruct (canteenContract env) as [c|]; [destruct (writeContractAsync env)|].
  - cbn -[String.append].
    destruct (walletWrite o _) as [tx|e]; cbn -[String.append];
      by rewrite ?app_nil_r, <- ?app_assoc.
  - cbn -[String.append]. by rewrite ?app_nil_r.
  - cbn -[String.append]. by rewrite ?app_nil_r.
Qed.

(** The writes a run of [addImage] adds to the effects: at most one. *)
Lemma addImage_writes env imageName numReplicas s tr :
  writesOf (effects (runWith o (addImage env imageName numReplicas) s tr)) =
  writesOf tr ++
  match canteenContract env, writeContractAsync env, Js.BigInt numReplicas with
  | Some c, true, Js.Fulfilled z => [addRequest c imageName z]
  | _, _, _ => []
  end.
Proof.
  rewrite addImage_run.
  destruct (canteenContract env) as [c|]; [destruct (writeContractAsync env)|];
    cbn [effects]; rewrite ?app_nil_r; try done.
  destruct (Js.BigInt numReplicas) as [z|e]; cbn [effects].
  - destruct (walletWrite o _); cbn [effects]; rewrite writesOf_app; reflexivity.
  - rewrite writesOf_app. reflexivity.
Qed.

Lemma removeImage_writes env imageName s tr :
  writesOf (effects (runWith o (removeImage env imageName) s tr)) =
  writesOf tr ++
  match canteenContract env, writeContractAsync env with
  | Some c, true => [removeRequest c imageName]
  | _, _ => []
  end.
Proof.
  rewrite removeImage_run.
  destruct (canteenContract env) as [c|]; [destruct (writeContractAsync env)|];
    cbn [effects]; rewrite ?app_nil_r; try done.
  destruct (walletWrite o _); cbn [effects]; rewrite writesOf_app; reflexivity.
Qed.
End Mutation.

(** ** Numbers read from the form *)

Lemma BigInt_ofZ z : Js.BigInt (Js.ofZ z) = Js.Fulfilled z.
Proof.
  unfold Js.BigInt, Js.ofZ, Js.isIntegral. cbn.
  rewrite Z.mod_1_r, Z.div_1_r. reflexivity.
Qed.

Lemma parseInt_integer_or_NaN s : Js.parseInt s = Js.NaN ∨ ∃ z, Js.parseInt s = Js.ofZ z.
Proof.
  unfold Js.parseInt.
  destruct (match Js.skipSpaces s with
            | String "-"%char rest => (true, rest)
            | String "+"%char rest => (false, rest)
            | _ => (false, Js.skipSpaces s)
            end) as [negative body].
  destruct (Js.readDigits body false 0); eauto.
Qed.

(** ** The event loop against the isolated runs *)

Section EventLoop.

Lemma run_cons ev evs w : run (ev :: evs) w = run evs (step ev w).
Proof. reflexivity. Qed.

Lemma run_app evs evs' w : run (evs ++ evs') w = run evs' (run evs w).
Proof. apply foldl_app. Qed.

Lemma exec_quiet {A} (m : Async A) s tr :
  quiet m → refreshTrigger (exec m s tr).1.1 = refreshTrigger s.
Proof.
  revert s tr. induction m as [a|e|a k IH|c k IH]; intros s tr Hq; cbn; auto.
  destruct Hq as [Ha Hk]. rewrite IH by done.
  destruct a; cbn; try done. by destruct (Ha f).
Qed.

Lemma runEffects_same e0 s0 w :
  env w = e0 → refreshTrigger (ui w) = refreshTrigger s0 → runEffects e0 s0 w = w.
Proof.
  intros <- Hg. unfold runEffects.
  destruct (decide (membersDeps (env w) s0 = membersDeps (env w) (ui w))) as [_|Hn];
    [|destruct Hn; unfold membersDeps; by rewrite Hg].
  destruct (decide (imagesDeps (env w) s0 = imagesDeps (env w) (ui w))) as [_|Hn];
    [done|destruct Hn; unfold imagesDeps; by rewrite Hg].
Qed.

Lemma env_advance id from stamp m w : env (advance id from stamp m w) = env w.
Proof. unfold advance. by destruct (exec m (ui w) (trace w)) as [[s tr] [r|c k]]. Qed.

Lemma ui_advance id from stamp m w :
  ui (advance id from stamp m w) = (exec m (ui w) (trace w)).1.1.
Proof. unfold advance. by destruct (exec m (ui w) (trace w)) as [[s tr] [r|c k]]. Qed.

Lemma step_settle_absent id o w : tasks w !! id = None → step (Settle id o) w = w.
Proof.
  intros Hid. unfold step. cbn [handle]. rewrite Hid. by apply runEffects_same.
Qed.

Lemma run_settle_absent n id o w :
  tasks w !! id = None → run (replicate n (Settle id o)) w = w.
Proof.
  intros Hid. induction n as [|n IH]; [done|].
  cbn [replicate]. by rewrite run_cons, step_settle_absent.
Qed.

Lemma step_settle_quiet id o w t :
  tasks w !! id = Some t →
  quiet (resume t (respond o (pending t))) →
  step (Settle id o) w =
  advance id (origin t) (startedAt t) (resume t (respond o (pending t))) w.
Proof.
  intros Hid Hq. unfold step. cbn [handle]. rewrite Hid.
  apply runEffects_same; [apply env_advance|].
  rewrite ui_advance. by apply exec_quiet.
Qed.

(** Settling the promises of a quiet task one after the other, with
    nothing in between, is the isolated run of what was left of it. *)
Lemma advance_settles {o} (m : Async Js.Value) :
  quiet m →
  ∀ id from stamp w n,
    (awaits o m ≤ n)%nat →
    run (replicate n (Settle id o)) (advance id from stamp m w) =
    finishWith id (runWith o m (ui w) (trace w)) w.
Proof.
  induction m as [a|e|a k IH|c k IH]; intros Hq id from stamp w n Hn.
  - apply run_settle_absent. cbn. apply lookup_delete_eq.
  - apply run_settle_absent. cbn. apply lookup_delete_eq.
  - destruct Hq as [_ Hq].
    apply (IH Hq id from stamp
             (mkWorld (env w) (apply a (ui w)) (tasks w) (nextId w)
                (trace w ++ emit a) (returned w)) n Hn).
  - cbn [awaits] in Hn. destruct n as [|n]; [lia|].
    cbn [replicate]. rewrite run_cons.
    set (w1 := advance id from stamp (Await c k) w).
    assert (Hid : tasks w1 !! id = Some (mkTask from stamp c k))
      by (subst w1; cbn; apply lookup_insert_eq).
    rewrite (step_settle_quiet _ _ _ _ Hid) by (cbn; apply Hq).
    cbn [origin startedAt resume pending].
    rewrite (IH (respond o c) (Hq _) id from stamp w1 n) by lia.
    subst w1. unfold finishWith. cbn. by rewrite delete_insert_eq.
Qed.

Lemma settle_runs {o} id w t n :
  tasks w !! id = Some t →
  (∀ r, quiet (resume t r)) →
  (awaits o (resume t (respond o (pending t))) < n)%nat →
  run (replicate n (Settle id o)) w =
  finishWith id (runWith o (resume t (respond o (pending t))) (ui w) (trace w)) w.
Proof.
  intros Hid Hq Hn. destruct n as [|n]; [lia|].
  cbn [replicate]. rewrite run_cons, (step_settle_quiet _ _ _ _ Hid) by apply Hq.
  apply advance_settles; [apply Hq|lia].
Qed.

End EventLoop.

(** ** A whole pass *)

Section Reconcile.
Context (o : Outside).

Lemma reconcileMembers_run count s tr :
  importEthers o = Js.Fulfilled () →
  ∃ tr',
    runWith o (reconcileMembers count) s tr =
    mkOutcome (apply (SetMembers (activeMembers o count)) s) tr'
      (Js.Fulfilled Js.Undefined)
    ∧ writesOf tr' = writesOf tr.
Proof.
  intros Himport. unfold reconcileMembers. cbn [bind await runWith respond].
  rewrite Himport. cbn [bind]. rewrite runWith_bind.
  destruct (membersLoop_run o count 0 [] s (tr ++ [Invoked ImportEthers]))
    as (tr' & -> & Hw).
  cbn. exists (tr' ++ []). split; [done|].
  by rewrite app_nil_r, Hw, writesOf_app, app_nil_r.
Qed.

Lemma reconcileImages_run count s tr :
  importEthers o = Js.Fulfilled () →
  ∃ tr',
    runWith o (reconcileImages count) s tr =
    mkOutcome (apply (SetImages (activeImages o count)) s) tr'
      (Js.Fulfilled Js.Undefined)
    ∧ writesOf tr' = writesOf tr.
Proof.
  intros Himport. unfold reconcileImages. cbn [bind await runWith respond].
  rewrite Himport. cbn [bind]. rewrite runWith_bind.
  destruct (imagesLoop_run o count 0 [] s (tr ++ [Invoked ImportEthers]))
    as (tr' & -> & Hw).
  cbn. exists (tr' ++ []). split; [done|].
  by rewrite app_nil_r, Hw, writesOf_app, app_nil_r.
Qed.

Lemma activeMemberAt_Some i host :
  activeMemberAt o i = Some host ↔
  ∃ details, contractMembers o i = Js.Fulfilled host
             ∧ contractGetMemberDetails o host = Js.Fulfilled details
             ∧ details.1.2 = true.
Proof.
  unfold activeMemberAt. split.
  - destruct (contractMembers o i) as [h|]; [|done].
    destruct (contractGetMemberDetails o h) as [d|] eqn:Hd; [|done].
    destruct (d.1.2) eqn:Ha; [|done]. intros [= <-]. eauto.
  - intros (d & -> & -> & ->). done.
Qed.

Lemma activeImageAt_Some i img :
  activeImageAt o i = Some img ↔
  ∃ imageName details,
    contractImages o i = Js.Fulfilled imageName
    ∧ contractGetImageDetails o imageName = Js.Fulfilled details
    ∧ details.2 = true
    ∧ img = mkImage imageName details.1.1 details.1.2 true.
Proof.
  unfold activeImageAt. split.
  - destruct (contractImages o i) as [h|]; [|done].
    destruct (contractGetImageDetails o h) as [d|] eqn:Hd; [|done].
    destruct (d.2) eqn:Ha; [|done]. intros [= <-]. eauto 10.
  - intros (h & d & -> & -> & -> & ->). done.
Qed.

Lemma omap_seq_length {A} (f : nat → option A) i n :
  (length (omap f (seq i n)) ≤ n)%nat.
Proof.
  revert i. induction n as [|n IH]; intros i; cbn; [lia|].
  destruct (f i); cbn; specialize (IH (S i)); lia.
Qed.

End Reconcile.

(** ** Passes inside the event loop *)

Section Overtaking.

Lemma runWith_trace {A} o (m : Async A) s tr :
  runWith o m s tr =
  mkOutcome (final (runWith o m s [])) (tr ++ effects (runWith o m s []))
    (settled (runWith o m s [])).
Proof.
  revert s tr. induction m as [a|e|a k IH|c k IH]; intros s tr; cbn.
  - by rewrite app_nil_r.
  - by rewrite app_nil_r.
  - rewrite (IH _ (tr ++ emit a)), (IH _ (emit a)). cbn. by rewrite <- app_assoc.
  - rewrite (IH _ _ (tr ++ _)), (IH _ _ [Invoked c]). cbn. by rewrite <- app_assoc.
Qed.

Lemma runWith_resumed {A} o c k (m : Async A) s tr :
  Await c k = m → final (runWith o (k (respond o c)) s tr) = final (runWith o m s []).
Proof.
  intros <-. cbn. by rewrite (runWith_trace _ _ _ tr), (runWith_trace _ _ _ [Invoked c]).
Qed.

Lemma quiet_bind {A B} (m : Async A) (f : A → Async B) :
  quiet m → (∀ a, quiet (f a)) → quiet (bind m f).
Proof.
  intros Hm Hf. induction m as [a|e|a k IH|c k IH]; cbn in *; [auto|auto| |auto].
  destruct Hm. auto.
Qed.

Lemma quiet_tryCatch {A} (m : Async A) h :
  quiet m → (∀ e, quiet (h e)) → quiet (tryCatch m h).
Proof.
  intros Hm Hh. induction m as [a|e|a k IH|c k IH]; cbn in *; [auto|auto| |auto].
  destruct Hm. auto.
Qed.

Lemma quiet_await c : quiet (await c).
Proof. intros [v|e]; exact I. Qed.

Lemma quiet_membersLoop n i acc : quiet (membersLoop n i acc).
Proof.
  revert i acc. induction n as [|n IH]; intros i acc; [exact I|].
  cbn [membersLoop]. apply quiet_bind; [|auto].
  apply quiet_tryCatch; [|by cbn].
  apply quiet_bind; [apply quiet_await|]. intros host.
  apply quiet_bind; [apply quiet_await|]. intros d. cbn. by destruct (d.1.2).
Qed.

Lemma quiet_imagesLoop n i acc : quiet (imagesLoop n i acc).
Proof.
  revert i acc. induction n as [|n IH]; intros i acc; [exact I|].
  cbn [imagesLoop]. apply quiet_bind; [|auto].
  apply quiet_tryCatch; [|by cbn].
  apply quiet_bind; [apply quiet_await|]. intros host.
  apply quiet_bind; [apply quiet_await|]. intros d. cbn. by destruct (d.2).
Qed.

Lemma quiet_reconcileMembers count : quiet (reconcileMembers count).
Proof.
  unfold reconcileMembers. apply quiet_bind; [apply quiet_await|]. intros _.
  apply quiet_bind; [apply quiet_membersLoop|]. intros l. by cbn.
Qed.

Lemma quiet_reconcileImages count : quiet (reconcileImages count).
Proof.
  unfold reconcileImages. apply quiet_bind; [apply quiet_await|]. intros _.
  apply quiet_bind; [apply quiet_imagesLoop|]. intros l. by cbn.
Qed.

(** Two suspended quiet tasks: [b] is run to its end first, then [a].
    Each leaves the state its own isolated run leaves; [a], which ends
    last, has the last word. *)
Lemma overtaken_task_has_last_word w a b tA tB oA oB mA mB :
  a ≠ b →
  tasks w !! a = Some tA → tasks w !! b = Some tB →
  Await (pending tA) (resume tA) = mA → Await (pending tB) (resume tB) = mB →
  quiet mA → quiet mB →
  ∃ k0, ∀ kA kB, (k0 ≤ kA)%nat → (k0 ≤ kB)%nat →
    let w3 := run (replicate kB (Settle b oB)) w in
    let w4 := run (replicate kA (Settle a oA)) w3 in
    ui w3 = final (runWith oB mB (ui w) [])
    ∧ tasks w3 !! b = None ∧ tasks w3 !! a = Some tA
    ∧ ui w4 = final (runWith oA mA (ui w3) [])
    ∧ tasks w4 !! a = None.
Proof.
  intros Hab HA HB HmA HmB HqA HqB.
  exists (S (awaits oA (resume tA (respond oA (pending tA)))
           + awaits oB (resume tB (respond oB (pending tB))))).
  intros kA kB HkA HkB w3 w4.
  assert (HqA' : ∀ r, quiet (resume tA r)) by (rewrite <- HmA in HqA; exact HqA).
  assert (HqB' : ∀ r, quiet (resume tB r)) by (rewrite <- HmB in HqB; exact HqB).
  assert (H3 : w3 = finishWith b
                 (runWith oB (resume tB (respond oB (pending tB))) (ui w) (trace w)) w)
    by (apply settle_runs; [done|done|lia]).
  assert (HA3 : tasks w3 !! a = Some tA)
    by (rewrite H3; cbn; by rewrite lookup_delete_ne).
  assert (H4 : w4 = finishWith a
                 (runWith oA (resume tA (respond oA (pending tA))) (ui w3) (trace w3)) w3)
    by (apply settle_runs; [done|done|lia]).
  repeat split.
  - rewrite H3. cbn. by apply runWith_resumed.
  - rewrite H3. cbn. apply lookup_delete_eq.
  - done.
  - rewrite H4. cbn. by apply runWith_resumed.
  - rewrite H4. cbn. apply lookup_delete_eq.
Qed.

Lemma launch_await from c k w :
  launch from (Await c k) w =
  mkWorld (env w) (ui w)
    (<[nextId w := mkTask from (refreshTrigger (ui w)) c k]> (tasks w))
    (S (nextId w)) (trace w ++ [Invoked c]) (returned w).
Proof. reflexivity. Qed.

Lemma launch_ret from v w :
  launch from (Ret v) w =
  mkWorld (env w) (ui w) (delete (nextId w) (tasks w)) (S (nextId w)) (trace w)
    (<[nextId w := Js.Fulfilled v]> (returned w)).
Proof. reflexivity. Qed.

Lemma reconcileMembers_head count : ∃ k, reconcileMembers count = Await ImportEthers k.
Proof. eexists. reflexivity. Qed.

Lemma reconcileImages_head count : ∃ k, reconcileImages count = Await ImportEthers k.
Proof. eexists. reflexivity. Qed.

Lemma fetchMembers_cases e :
  fetchMembers e = Ret Js.Undefined ∨
  ∃ c n p, canteenContract e = Some c ∧ membersCount e = Some n ∧ n ≠ 0%Z
           ∧ ethersReadonlyProvider e = Some p
           ∧ fetchMembers e = reconcileMembers (Z.to_nat n).
Proof.
  unfold fetchMembers.
  destruct (canteenContract e) as [c|]; [|by left].
  destruct (membersCount e) as [n|]; [|by left].
  destruct (ethersReadonlyProvider e) as [p|]; [|by left].
  cbn. destruct (Z.eqb_spec n 0); cbn; [by left|]. right. eauto 10.
Qed.

Lemma fetchImages_cases e :
  fetchImages e = Ret Js.Undefined ∨
  ∃ c n p, canteenContract e = Some c ∧ imagesCount e = Some n ∧ n ≠ 0%Z
           ∧ ethersReadonlyProvider e = Some p
           ∧ fetchImages e = reconcileImages (Z.to_nat n).
Proof.
  unfold fetchImages.
  destruct (canteenContract e) as [c|]; [|by left].
  destruct (imagesCount e) as [n|]; [|by left].
  destruct (ethersReadonlyProvider e) as [p|]; [|by left].
  cbn. destruct (Z.eqb_spec n 0); cbn; [by left|]. right. eauto 10.
Qed.

(** Starting a pass changes no state, gives the pass the next task
    number and leaves the other tasks alone. *)
Lemma launch_fetchMembers_frame e w :
  let w' := launch FetchMembers (fetchMembers e) w in
  env w' = env w ∧ ui w' = ui w ∧ nextId w' = S (nextId w)
  ∧ ∀ id, id ≠ nextId w → tasks w' !! id = tasks w !! id.
Proof.
  destruct (fetchMembers_cases e) as [->|(c & n & p & _ & _ & _ & _ & ->)].
  - rewrite launch_ret. cbn. repeat split. intros id Hid. by rewrite lookup_delete_ne.
  - destruct (reconcileMembers_head (Z.to_nat n)) as [k ->]. rewrite launch_await.
    cbn. repeat split. intros id Hid. by rewrite lookup_insert_ne.
Qed.

Lemma launch_fetchImages_frame e w :
  let w' := launch FetchImages (fetchImages e) w in
  env w' = env w ∧ ui w' = ui w ∧ nextId w' = S (nextId w)
  ∧ ∀ id, id ≠ nextId w → tasks w' !! id = tasks w !! id.
Proof.
  destruct (fetchImages_cases e) as [->|(c & n & p & _ & _ & _ & _ & ->)].
  - rewrite launch_ret. cbn. repeat split. intros id Hid. by rewrite lookup_delete_ne.
  - destruct (reconcileImages_head (Z.to_nat n)) as [k ->]. rewrite launch_await.
    cbn. repeat split. intros id Hid. by rewrite lookup_insert_ne.
Qed.

(** When the guard lets the pass through, the new task is the pass,
    stamped with the current generation. *)
Lemma fetchMembers_guarded e c n p :
  canteenContract e = Some c → membersCount e = Some n → n ≠ 0%Z →
  ethersReadonlyProvider e = Some p →
  fetchMembers e = reconcileMembers (Z.to_nat n).
Proof.
  intros Hc Hn Hn0 Hp. unfold fetchMembers. rewrite Hc, Hn, Hp.
  unfold Js.truthyBigInt. by destruct (Z.eqb_spec n 0).
Qed.

Lemma launch_fetchMembers_task e w c n p :
  canteenContract e = Some c → membersCount e = Some n → n ≠ 0%Z →
  ethersReadonlyProvider e = Some p →
  ∃ t, tasks (launch FetchMembers (fetchMembers e) w) !! nextId w = Some t
       ∧ origin t = FetchMembers ∧ startedAt t = refreshTrigger (ui w)
       ∧ Await (pending t) (resume t) = reconcileMembers (Z.to_nat n).
Proof.
  intros Hc Hn Hn0 Hp. rewrite (fetchMembers_guarded e c n p) by done.
  destruct (reconcileMembers_head (Z.to_nat n)) as [k Hk]. rewrite Hk, launch_await.
  eexists. split; [apply lookup_insert_eq|]. by cbn.
Qed.

Lemma fetchImages_guarded e c n p :
  canteenContract e = Some c → imagesCount e = Some n → n ≠ 0%Z →
  ethersReadonlyProvider e = Some p →
  fetchImages e = reconcileImages (Z.to_nat n).
Proof.
  intros Hc Hn Hn0 Hp. unfold fetchImages. rewrite Hc, Hn, Hp.
  unfold Js.truthyBigInt. by destruct (Z.eqb_spec n 0).
Qed.

Lemma launch_fetchImages_task e w c n p :
  canteenContract e = Some c → imagesCount e = Some n → n ≠ 0%Z →
  ethersReadonlyProvider e = Some p →
  ∃ t, tasks (launch FetchImages (fetchImages e) w) !! nextId w = Some t
       ∧ origin t = FetchImages ∧ startedAt t = refreshTrigger (ui w)
       ∧ Await (pending t) (resume t) = reconcileImages (Z.to_nat n).
Proof.
  intros Hc Hn Hn0 Hp. rewrite (fetchImages_guarded e c n p) by done.
  destruct (reconcileImages_head (Z.to_nat n)) as [k Hk]. rewrite Hk, launch_await.
  eexists. split; [apply lookup_insert_eq|]. by cbn.
Qed.

(** A render after [refreshTrigger] moved runs both effects. *)
Lemma runEffects_bumped e0 s0 w :
  env w = e0 → refreshTrigger (ui w) ≠ refreshTrigger s0 →
  runEffects e0 s0 w =
  launch FetchImages (fetchImages (env w)) (launch FetchMembers (fetchMembers (env w)) w).
Proof.
  intros <- Hg. unfold runEffects.
  destruct (decide (membersDeps (env w) s0 = membersDeps (env w) (ui w))) as [Heq|_];
    [unfold membersDeps in Heq; congruence|].
  destruct (launch_fetchMembers_frame (env w) w) as (He & Hu & _).
  destruct (decide _) as [Heq|_]; [|by rewrite He].
  unfold imagesDeps in Heq. rewrite Hu in Heq. congruence.
Qed.

Lemma step_refresh w :
  step CallRefresh w =
  launch FetchImages (fetchImages (env w))
    (launch FetchMembers (fetchMembers (env w)) (bumped w)).
Proof.
  unfold step.
  assert (handle CallRefresh w = bumped w) as ->
    by (unfold bumped; cbn; by rewrite app_nil_r).
  rewrite runEffects_bumped; [done|done|]. cbn. lia.
Qed.

(** What a call of [refresh] leaves behind when both guards let their
    pass through: the generation moved by one and two new passes are
    suspended, stamped with the new generation. *)
Lemma step_refresh_spec w c nm ni p :
  canteenContract (env w) = Some c → ethersReadonlyProvider (env w) = Some p →
  membersCount (env w) = Some nm → nm ≠ 0%Z →
  imagesCount (env w) = Some ni → ni ≠ 0%Z →
  let w' := step CallRefresh w in
  env w' = env w
  ∧ ui w' = apply (SetRefreshTrigger (λ prev, prev + 1)%nat) (ui w)
  ∧ nextId w' = S (S (S (nextId w)))
  ∧ (∃ t, tasks w' !! S (nextId w) = Some t
          ∧ origin t = FetchMembers ∧ startedAt t = S (refreshTrigger (ui w))
          ∧ Await (pending t) (resume t) = reconcileMembers (Z.to_nat nm))
  ∧ (∃ t, tasks w' !! S (S (nextId w)) = Some t
          ∧ origin t = FetchImages ∧ startedAt t = S (refreshTrigger (ui w))
          ∧ Await (pending t) (resume t) = reconcileImages (Z.to_nat ni))
  ∧ ∀ id, (id < nextId w)%nat → tasks w' !! id = tasks w !! id.
Proof.
  intros Hc Hp Hnm Hnm0 Hni Hni0 w'. subst w'. rewrite step_refresh.
  set (wb := bumped w). set (wm := launch FetchMembers (fetchMembers (env w)) wb).
  destruct (launch_fetchMembers_frame (env w) wb) as (Hem & Hum & Hnm' & Hfm).
  destruct (launch_fetchImages_frame (env w) wm) as (Hei & Hui & Hni' & Hfi).
  fold wm in Hem, Hum, Hnm', Hfm.
  destruct (launch_fetchMembers_task (env w) wb c nm p) as (tM & HtM & HoM & HsM & HkM);
    [done..|].
  destruct (launch_fetchImages_task (env w) wm c ni p) as (tI & HtI & HoI & HsI & HkI);
    [done..|].
  fold wm in HtM. rewrite Hnm' in HtI, Hni', Hfi. rewrite Hum in HsI.
  change (nextId wb) with (S (nextId w)) in *.
  change (refreshTrigger (ui wb)) with (refreshTrigger (ui w) + 1)%nat in *.
  repeat split.
  - by rewrite Hei, Hem.
  - by rewrite Hui, Hum.
  - done.
  - exists tM. rewrite Hfi by lia. repeat split; [done|done|lia|done].
  - exists tI. repeat split; [done|done|lia|done].
  - intros id Hid. rewrite Hfi, Hfm by lia. subst wb. cbn.
    apply lookup_delete_ne. lia.
Qed.

End Overtaking.

(** * The reconciler *)

(** C3. For every count other than 0 and every pattern of failing
    fetches, a pass that runs to its end publishes the active entries of
    the indices below the count whose key and detail fetches both
    succeeded, in index order: the list is no longer than the count, and
    a failing entry never makes the pass throw.  With the count 0 the
    function returns at its guard: it asks the registry nothing and
    publishes nothing, so the list of the state it started from stays,
    whatever its length.  Stated for [fetchMembers] and for
    [fetchImages], from any state; each of the two needs its own count
    only. *)
Theorem pass_publishes_active_entries (o : Outside) (e : Env) (c : ContractInfo)
    (p : nat) (s : State) (tr : list Effect) :
  canteenContract e = Some c → ethersReadonlyProvider e = Some p →
  importEthers o = Js.Fulfilled () →
  (∀ i host,
     activeMemberAt o i = Some host ↔
     ∃ details, contractMembers o i = Js.Fulfilled host
                ∧ contractGetMemberDetails o host = Js.Fulfilled details
                ∧ details.1.2 = true)
  ∧ (∀ i img,
       activeImageAt o i = Some img ↔
       ∃ imageName details,
         contractImages o i = Js.Fulfilled imageName
         ∧ contractGetImageDetails o imageName = Js.Fulfilled details
         ∧ details.2 = true
         ∧ img = mkImage imageName details.1.1 details.1.2 true)
  ∧ (∀ nm, membersCount e = Some nm →
       let r := runWith o (fetchMembers e) s tr in
       let count := Z.to_nat nm in
       settled r = Js.Fulfilled Js.Undefined
       ∧ images (final r) = images s
       ∧ (nm ≠ 0%Z →
          members (final r) = omap (activeMemberAt o) (seq 0 count)
          ∧ (length (members (final r)) ≤ count)%nat)
       ∧ (nm = 0%Z → final r = s ∧ effects r = tr))
  ∧ (∀ ni, imagesCount e = Some ni →
       let r := runWith o (fetchImages e) s tr in
       let count := Z.to_nat ni in
       settled r = Js.Fulfilled Js.Undefined
       ∧ members (final r) = members s
       ∧ (ni ≠ 0%Z →
          images (final r) = omap (activeImageAt o) (seq 0 count)
          ∧ (length (images (final r)) ≤ count)%nat)
       ∧ (ni = 0%Z → final r = s ∧ effects r = tr)).
Proof.
  intros Hc Hp Himport.
  split; [apply activeMemberAt_Some|]. split; [apply activeImageAt_Some|]. split.
  - intros nm Hnm. destruct (decide (nm = 0%Z)) as [->|Hnm0].
    + unfold fetchMembers. rewrite Hc, Hnm, Hp. by cbn.
    + rewrite (fetchMembers_guarded e c nm p) by done.
      destruct (reconcileMembers_run o (Z.to_nat nm) s tr Himport) as (tr' & -> & _).
      cbn. unfold activeMembers.
      split; [done|]. split; [done|]. split; [|done].
      intros _. split; [done|]. apply omap_seq_length.
  - intros ni Hni. destruct (decide (ni = 0%Z)) as [->|Hni0].
    + unfold fetchImages. rewrite Hc, Hni, Hp. by cbn.
    + rewrite (fetchImages_guarded e c ni p) by done.
      destruct (reconcileImages_run o (Z.to_nat ni) s tr Himport) as (tr' & -> & _).
      cbn. unfold activeImages.
      split; [done|]. split; [done|]. split; [|done].
      intros _. split; [done|]. apply omap_seq_length.
Qed.

(** The scenario of three entries, active, inactive, active; and the
    same registry read with both counts 0, from a page that shows
    nothing yet. *)
Lemma pass_publishes_active_entries_witness :
  let e := Sample.envOf (Some 3%Z) (Some 3%Z) in
  let e0 := Sample.envOf (Some 0%Z) (Some 0%Z) in
  (canteenContract e = Some Sample.canteen ∧ ethersReadonlyProvider e = Some 1%nat
   ∧ membersCount e = Some 3%Z ∧ imagesCount e = Some 3%Z
   ∧ importEthers Sample.registry = Js.Fulfilled ())
  ∧ members (final (runWith Sample.registry (fetchMembers e) initialState []))
    = ["node-a"; "node-c"]
  ∧ images (final (runWith Sample.registry (fetchImages e) initialState []))
    = [mkImage "nginx" 3 1 true; mkImage "postgres" 3 1 true]
  ∧ final (runWith Sample.registry (fetchMembers e0) initialState []) = initialState
  ∧ final (runWith Sample.registry (fetchImages e0) initialState []) = initialState.
Proof.
  intros e e0. split; [repeat split; done|].
  destruct (pass_publishes_active_entries Sample.registry e Sample.canteen 1
              initialState [] eq_refl eq_refl eq_refl)
    as (_ & _ & Hm & Hi).
  destruct (Hm 3%Z eq_refl) as (_ & _ & Hm3 & _).
  destruct (Hi 3%Z eq_refl) as (_ & _ & Hi3 & _).
  destruct (Hm3 ltac:(done)) as (-> & _). destruct (Hi3 ltac:(done)) as (-> & _).
  destruct (pass_publishes_active_entries Sample.registry e0 Sample.canteen 1
              initialState [] eq_refl eq_refl eq_refl)
    as (_ & _ & Hm0 & Hi0).
  destruct (Hm0 0%Z eq_refl) as (_ & _ & _ & Hm00).
  destruct (Hi0 0%Z eq_refl) as (_ & _ & _ & Hi00).
  destruct (Hm00 eq_refl) as (-> & _). destruct (Hi00 eq_refl) as (-> & _).
  repeat split; reflexivity.
Defined.

(** Against C3 as stated, at the count 0.  A page shows the two members
    of a registry whose count was 2; the count then reads 0.  The
    member effect runs again, its pass returns at the guard, and the two
    hosts stay on the page: the list is longer than the count and is not
    the list of the active entries below it.  The same for the images,
    in an isolated run from a state that shows two images. *)
Lemma zero_count_keeps_longer_list :
  let e2 := Sample.envOf (Some 2%Z) None in
  let e0 := Sample.envOf (Some 0%Z) (Some 0%Z) in
  let w1 := run (replicate 5 (Settle 0 Sample.before)) (mount e2 initialState) in
  let w2 := step (Rerender e0) w1 in
  let count := Z.to_nat 0 in
  let r := runWith Sample.before (fetchMembers e0) (ui w1) (trace w1) in
  let shown := SetImages [mkImage "nginx" 3 1 true; mkImage "redis" 2 0 true] in
  let r' := runWith Sample.before (fetchImages e0) (apply shown initialState) [] in
  (membersCount (env w2) = Some 0%Z ∧ tasks w2 = ∅ ∧ trace w2 = trace w1)
  ∧ (settled r = Js.Fulfilled Js.Undefined ∧ final r = ui w2 ∧ effects r = trace w2)
  ∧ members (ui w2) = ["node-a"; "node-b"]
  ∧ ¬ (length (members (ui w2)) ≤ count)%nat
  ∧ members (ui w2) ≠ omap (activeMemberAt Sample.before) (seq 0 count)
  ∧ settled r' = Js.Fulfilled Js.Undefined
  ∧ ¬ (length (images (final r')) ≤ count)%nat
  ∧ images (final r') ≠ omap (activeImageAt Sample.before) (seq 0 count).
Proof.
  vm_compute. repeat split; first [reflexivity | discriminate | lia].
Qed.

(** C9. When the count is zero or not yet known, or the contract or the
    provider is not resolved, a reconciliation attempt returns at once:
    no promise is awaited, so no fetch is made, and the state, with the
    published lists, is left as it was.  A zero count and an unknown
    count give the same function body. *)
Theorem unresolved_count_skips_pass (e : Env) (w : World) :
  (membersCount e = None ∨ membersCount e = Some 0%Z ∨ canteenContract e = None
   ∨ ethersReadonlyProvider e = None →
   fetchMembers e = Ret Js.Undefined
   ∧ (∀ o s tr, runWith o (fetchMembers e) s tr = mkOutcome s tr (Js.Fulfilled Js.Undefined))
   ∧ let w' := launch FetchMembers (fetchMembers e) w in
     ui w' = ui w ∧ trace w' = trace w ∧ tasks w' !! nextId w = None)
  ∧ (imagesCount e = None ∨ imagesCount e = Some 0%Z ∨ canteenContract e = None
     ∨ ethersReadonlyProvider e = None →
     fetchImages e = Ret Js.Undefined
     ∧ (∀ o s tr, runWith o (fetchImages e) s tr = mkOutcome s tr (Js.Fulfilled Js.Undefined))
     ∧ let w' := launch FetchImages (fetchImages e) w in
       ui w' = ui w ∧ trace w' = trace w ∧ tasks w' !! nextId w = None).
Proof.
  split; intros H.
  - assert (He : fetchMembers e = Ret Js.Undefined).
    { unfold fetchMembers.
      destruct (canteenContract e) as [c|], (membersCount e) as [n|],
        (ethersReadonlyProvider e) as [p|]; try done.
      destruct H as [H|[H|[H|H]]]; try done. by injection H as ->. }
    rewrite He. repeat split. cbn. apply lookup_delete_eq.
  - assert (He : fetchImages e = Ret Js.Undefined).
    { unfold fetchImages.
      destruct (canteenContract e) as [c|], (imagesCount e) as [n|],
        (ethersReadonlyProvider e) as [p|]; try done.
      destruct H as [H|[H|[H|H]]]; try done. by injection H as ->. }
    rewrite He. repeat split. cbn. apply lookup_delete_eq.
Qed.

(** A page whose counts are zero for the members and unknown for the
    images: mounting it starts no pass. *)
Lemma unresolved_count_skips_pass_witness :
  (membersCount (Sample.envOf (Some 0%Z) None) = Some 0%Z
   ∧ imagesCount (Sample.envOf (Some 0%Z) None) = None)
  ∧ fetchMembers (Sample.envOf (Some 0%Z) None) = Ret Js.Undefined
  ∧ fetchImages (Sample.envOf (Some 0%Z) None) = Ret Js.Undefined.
Proof.
  split; [split; reflexivity|].
  pose proof (unresolved_count_skips_pass (Sample.envOf (Some 0%Z) None)
                (mount (Sample.envOf (Some 0%Z) None) initialState)) as [Hm Hi].
  split.
  - apply Hm. right. left. reflexivity.
  - apply Hi. left. reflexivity.
Defined.

(** C1, as the code has it.  No pass looks at the generation when it
    ends: of two overlapping passes of one collection, the pass that
    completes last decides the published list.  Two calls of [refresh]
    start an older and a newer pass for each collection; when the newer
    pass is run to its end first and the older one afterwards, the
    published list is the older pass's result, and the generation is
    where the second call left it. *)
Theorem later_completion_wins (w0 : World) (c : ContractInfo) (p : nat) (nm ni : Z)
    (oOld oNew : Outside) :
  canteenContract (env w0) = Some c → ethersReadonlyProvider (env w0) = Some p →
  membersCount (env w0) = Some nm → nm ≠ 0%Z →
  imagesCount (env w0) = Some ni → ni ≠ 0%Z →
  importEthers oOld = Js.Fulfilled () → importEthers oNew = Js.Fulfilled () →
  let g := refreshTrigger (ui w0) in
  let w1 := step CallRefresh w0 in
  let w2 := step CallRefresh w1 in
  let olderM := S (nextId w0) in
  let olderI := S (S (nextId w0)) in
  let newerM := S (nextId w1) in
  let newerI := S (S (nextId w1)) in
  (startedAt <$> tasks w2 !! olderM = Some (S g)
   ∧ startedAt <$> tasks w2 !! newerM = Some (S (S g))
   ∧ startedAt <$> tasks w2 !! olderI = Some (S g)
   ∧ startedAt <$> tasks w2 !! newerI = Some (S (S g)))
  ∧ ∃ k0, ∀ kOld kNew, (k0 ≤ kOld)%nat → (k0 ≤ kNew)%nat →
      (let w3 := run (replicate kNew (Settle newerM oNew)) w2 in
       let w4 := run (replicate kOld (Settle olderM oOld)) w3 in
       members (ui w3) = activeMembers oNew (Z.to_nat nm)
       ∧ tasks w3 !! newerM = None ∧ is_Some (tasks w3 !! olderM)
       ∧ members (ui w4) = activeMembers oOld (Z.to_nat nm)
       ∧ refreshTrigger (ui w4) = S (S g))
      ∧ (let w3 := run (replicate kNew (Settle newerI oNew)) w2 in
         let w4 := run (replicate kOld (Settle olderI oOld)) w3 in
         images (ui w3) = activeImages oNew (Z.to_nat ni)
         ∧ tasks w3 !! newerI = None ∧ is_Some (tasks w3 !! olderI)
         ∧ images (ui w4) = activeImages oOld (Z.to_nat ni)
         ∧ refreshTrigger (ui w4) = S (S g)).
Proof.
  intros Hc Hp Hnm Hnm0 Hni Hni0 HiOld HiNew g w1 w2 olderM olderI newerM newerI.
  destruct (step_refresh_spec w0 c nm ni p Hc Hp Hnm Hnm0 Hni Hni0)
    as (He1 & Hu1 & Hn1 & (tA & HtA & _ & HsA & HkA) & (tA' & HtA' & _ & HsA' & HkA') & _).
  fold w1 in He1, Hu1, Hn1, HtA, HtA'.
  rewrite <- He1 in Hc, Hp, Hnm, Hni.
  destruct (step_refresh_spec w1 c nm ni p Hc Hp Hnm Hnm0 Hni Hni0)
    as (He2 & Hu2 & Hn2 & (tB & HtB & _ & HsB & HkB) & (tB' & HtB' & _ & HsB' & HkB') & Hold).
  fold w2 in He2, Hu2, Hn2, HtB, HtB', Hold.
  assert (Hg1 : refreshTrigger (ui w1) = S g) by (rewrite Hu1; cbn; lia).
  assert (Hg2 : refreshTrigger (ui w2) = S (S g)) by (rewrite Hu2; cbn; lia).
  assert (HtA2 : tasks w2 !! olderM = Some tA) by (rewrite Hold; [done|lia]).
  assert (HtA2' : tasks w2 !! olderI = Some tA') by (rewrite Hold; [done|lia]).
  split.
  { subst olderM olderI newerM newerI.
    rewrite HtA2, HtA2', HtB, HtB'. cbn. by rewrite HsA, HsA', HsB, HsB', Hg1. }
  destruct (overtaken_task_has_last_word w2 olderM newerM tA tB oOld oNew _ _
              ltac:(subst olderM newerM; lia) HtA2 HtB HkA HkB
              (quiet_reconcileMembers _) (quiet_reconcileMembers _)) as [kM HM].
  destruct (overtaken_task_has_last_word w2 olderI newerI tA' tB' oOld oNew _ _
              ltac:(subst olderI newerI; lia) HtA2' HtB' HkA' HkB'
              (quiet_reconcileImages _) (quiet_reconcileImages _)) as [kI HI].
  exists (kM `max` kI)%nat. intros kOld kNew HkOld HkNew. split.
  - destruct (HM kOld kNew ltac:(lia) ltac:(lia)) as (H3 & Hb & Ha & H4 & _).
    cbv zeta. rewrite H4, H3, Hb, Ha.
    destruct (reconcileMembers_run oNew (Z.to_nat nm) (ui w2) [] HiNew) as (? & -> & _).
    cbn [final].
    destruct (reconcileMembers_run oOld (Z.to_nat nm)
                (apply (SetMembers (activeMembers oNew (Z.to_nat nm))) (ui w2)) [] HiOld)
      as (? & -> & _).
    cbn. by rewrite Hg2.
  - destruct (HI kOld kNew ltac:(lia) ltac:(lia)) as (H3 & Hb & Ha & H4 & _).
    cbv zeta. rewrite H4, H3, Hb, Ha.
    destruct (reconcileImages_run oNew (Z.to_nat ni) (ui w2) [] HiNew) as (? & -> & _).
    cbn [final].
    destruct (reconcileImages_run oOld (Z.to_nat ni)
                (apply (SetImages (activeImages oNew (Z.to_nat ni))) (ui w2)) [] HiOld)
      as (? & -> & _).
    cbn. by rewrite Hg2.
Qed.

(** On a page with two members, [node-a] and [node-b] stay active while
    the older pass is overtaken: the older pass's list is what remains. *)
Lemma later_completion_wins_witness :
  let w0 := mount (Sample.envOf (Some 2%Z) (Some 2%Z)) initialState in
  (canteenContract (env w0) = Some Sample.canteen
   ∧ ethersReadonlyProvider (env w0) = Some 1%nat
   ∧ membersCount (env w0) = Some 2%Z ∧ 2%Z ≠ 0%Z
   ∧ imagesCount (env w0) = Some 2%Z
   ∧ importEthers Sample.before = Js.Fulfilled ()
   ∧ importEthers Sample.after = Js.Fulfilled ())
  ∧ ∃ k0, ∀ kOld kNew, (k0 ≤ kOld)%nat → (k0 ≤ kNew)%nat →
      members (ui (run (replicate kOld (Settle 3 Sample.before))
                     (run (replicate kNew (Settle 6 Sample.after))
                        (run [CallRefresh; CallRefresh] w0))))
      = activeMembers Sample.before 2.
Proof.
  intros w0. split; [repeat split; done|].
  destruct (later_completion_wins w0 Sample.canteen 1 2 2 Sample.before Sample.after
              eq_refl eq_refl eq_refl ltac:(done) eq_refl ltac:(done) eq_refl eq_refl)
    as [_ [k0 Hk]].
  exists k0. intros kOld kNew HkOld HkNew.
  destruct (Hk kOld kNew HkOld HkNew) as [(_ & _ & _ & H4 & _) _].
  exact H4.
Defined.

(** C1 fails as stated.  On a page with two members the pass started on
    mount (generation 0) has fetched [node-a] while it was active; the
    member is then deactivated and [refresh] starts a second pass
    (generation 1), which runs to its end and publishes [node-b] alone;
    the first pass then ends and publishes [node-a] and [node-b]. *)
Lemma stale_pass_overwrites_newer :
  let env2 := Sample.envOf (Some 2%Z) None in
  let w1 := run [Settle 0 Sample.before; Settle 0 Sample.before; Settle 0 Sample.before;
                 CallRefresh] (mount env2 initialState) in
  let w2 := run (replicate 5 (Settle 3 Sample.after)) w1 in
  let w3 := run (replicate 2 (Settle 0 Sample.after)) w2 in
  (origin <$> tasks w1 !! 0%nat = Some FetchMembers
   ∧ startedAt <$> tasks w1 !! 0%nat = Some 0%nat
   ∧ pending <$> tasks w1 !! 0%nat = Some (Members 1))
  ∧ (origin <$> tasks w1 !! 3%nat = Some FetchMembers
     ∧ startedAt <$> tasks w1 !! 3%nat = Some 1%nat)
  ∧ (tasks w2 !! 3%nat = None
     ∧ members (ui w2) = activeMembers Sample.after 2
     ∧ members (ui w2) = ["node-b"]
     ∧ pending <$> tasks w2 !! 0%nat = Some (Members 1))
  ∧ (tasks w3 !! 0%nat = None
     ∧ refreshTrigger (ui w3) = 1%nat
     ∧ members (ui w3) = ["node-a"; "node-b"]
     ∧ members (ui w3) ≠ members (ui w2)).
Proof.
  vm_compute. repeat split; discriminate.
Qed.

(** * The mutations *)

Section Busy.

Lemma step_addImage_pending w c imageName numReplicas z :
  canteenContract (env w) = Some c → writeContractAsync (env w) = true →
  Js.BigInt numReplicas = Js.Fulfilled z →
  ∃ k,
    step (CallAddImage imageName numReplicas) w =
    mkWorld (env w)
      (apply (SetMessage "Adding image...") (apply (SetIsProcessing true) (ui w)))
      (<[nextId w := mkTask AddImage (refreshTrigger (ui w))
                       (WriteContractAsync (addRequest c imageName z)) k]> (tasks w))
      (S (nextId w))
      (trace w ++ [Invoked (WriteContractAsync (addRequest c imageName z))])
      (returned w).
Proof.
  intros Hc Hw Hz. unfold step. cbn [handle]. unfold launch, advance, addImage.
  rewrite Hc, Hw. cbn. rewrite Hz. cbn. rewrite !app_nil_r.
  eexists. by rewrite runEffects_same.
Qed.

Lemma step_removeImage_pending w c imageName :
  canteenContract (env w) = Some c → writeContractAsync (env w) = true →
  ∃ k,
    step (CallRemoveImage imageName) w =
    mkWorld (env w)
      (apply (SetMessage "Removing image...") (apply (SetIsProcessing true) (ui w)))
      (<[nextId w := mkTask RemoveImage (refreshTrigger (ui w))
                       (WriteContractAsync (removeRequest c imageName)) k]> (tasks w))
      (S (nextId w))
      (trace w ++ [Invoked (WriteContractAsync (removeRequest c imageName))])
      (returned w).
Proof.
  intros Hc Hw. unfold step. cbn [handle]. unfold launch, advance, removeImage.
  rewrite Hc, Hw. cbn. rewrite !app_nil_r.
  eexists. by rewrite runEffects_same.
Qed.

End Busy.

(** C2, as the code has it.  Neither [addImage] nor [removeImage] reads
    [isProcessing]: a call made while it is true is not turned away and
    not queued; when the contract and the write function are available
    (and, for [addImage], the replica count is an integer) it invokes the
    write entry point once more and is suspended on it like the first.
    The gate is in the dashboard alone, whose two submit buttons are
    disabled while [isProcessing] is true. *)
Theorem busy_submission_is_written (w : World) (c : ContractInfo) (imageName : string)
    (numReplicas : Js.Number) (z : Z) :
  isProcessing (ui w) = true →
  canteenContract (env w) = Some c → writeContractAsync (env w) = true →
  Js.BigInt numReplicas = Js.Fulfilled z →
  (let w' := step (CallAddImage imageName numReplicas) w in
   writesOf (trace w') = writesOf (trace w) ++ [addRequest c imageName z]
   ∧ pending <$> tasks w' !! nextId w
     = Some (WriteContractAsync (addRequest c imageName z))
   ∧ isProcessing (ui w') = true ∧ message (ui w') = "Adding image...")
  ∧ (let w' := step (CallRemoveImage imageName) w in
     writesOf (trace w') = writesOf (trace w) ++ [removeRequest c imageName]
     ∧ pending <$> tasks w' !! nextId w
       = Some (WriteContractAsync (removeRequest c imageName))
     ∧ isProcessing (ui w') = true ∧ message (ui w') = "Removing image...")
  ∧ addButtonDisabled (ui w) = true
  ∧ removeButtonDisabled (ui w) = true.
Proof.
  intros Hbusy Hc Hw Hz.
  destruct (step_addImage_pending w c imageName numReplicas z Hc Hw Hz) as [ka ->].
  destruct (step_removeImage_pending w c imageName Hc Hw) as [kr ->].
  unfold addButtonDisabled, removeButtonDisabled. rewrite Hbusy. cbn.
  rewrite !writesOf_app, !lookup_insert_eq. done.
Qed.

(** A second image is submitted while the first write is pending. *)
Lemma busy_submission_is_written_witness :
  let w := step (CallAddImage "nginx" (Js.ofZ 3))
             (mount (Sample.envOf (Some 2%Z) None) initialState) in
  (isProcessing (ui w) = true
   ∧ canteenContract (env w) = Some Sample.canteen
   ∧ writeContractAsync (env w) = true
   ∧ Js.BigInt (Js.ofZ 1) = Js.Fulfilled 1%Z)
  ∧ writesOf (trace (step (CallAddImage "redis" (Js.ofZ 1)) w))
    = writesOf (trace w) ++ [addRequest Sample.canteen "redis" 1].
Proof.
  intros w. split; [repeat split; reflexivity|].
  destruct (busy_submission_is_written w Sample.canteen "redis" (Js.ofZ 1) 1
              eq_refl eq_refl eq_refl eq_refl) as [(H & _) _].
  exact H.
Defined.

(** C2 fails as stated.  With a first [addImage] pending, a second
    [addImage] and a [removeImage] each reach the write entry point: three
    writes have been invoked, and the two later calls are suspended, not
    settled. *)
Lemma second_submission_reaches_write :
  let w1 := step (CallAddImage "nginx" (Js.ofZ 3))
              (mount (Sample.envOf (Some 2%Z) None) initialState) in
  let w3 := run [CallAddImage "redis" (Js.ofZ 1); CallRemoveImage "nginx"] w1 in
  (isProcessing (ui w1) = true
   ∧ writesOf (trace w1) = [addRequest Sample.canteen "nginx" 3])
  ∧ writesOf (trace w3)
    = [addRequest Sample.canteen "nginx" 3; addRequest Sample.canteen "redis" 1;
       removeRequest Sample.canteen "nginx"]
  ∧ (origin <$> tasks w3 !! 3%nat = Some AddImage
     ∧ origin <$> tasks w3 !! 4%nat = Some RemoveImage
     ∧ returned w3 !! 3%nat = None ∧ returned w3 !! 4%nat = None)
  ∧ length (writesOf (trace w3)) ≠ length (writesOf (trace w1)).
Proof.
  vm_compute. repeat split; discriminate.
Qed.

(** * The notification listeners *)

Section Listeners.

Lemma exec_trace_grows {A} (m : Async A) s tr : ∃ tr', (exec m s tr).1.2 = tr ++ tr'.
Proof.
  revert s tr. induction m as [a|e|a k IH|c k IH]; intros s tr; cbn.
  - exists []. by rewrite app_nil_r.
  - exists []. by rewrite app_nil_r.
  - destruct (IH (apply a s) (tr ++ emit a)) as [tr' ->].
    exists (emit a ++ tr'). by rewrite app_assoc.
  - by eexists.
Qed.

Lemma launch_trace_grows from m w : ∃ tr', trace (launch from m w) = trace w ++ tr'.
Proof.
  unfold launch, advance. cbn [ui trace].
  destruct (exec_trace_grows m (ui w) (trace w)) as [tr' Htr].
  destruct (exec m (ui w) (trace w)) as [[s tr] [r|c k]]; cbn in *; eauto.
Qed.

Lemma step_notify_image w eventName :
  eventName = ImageAdded ∨ eventName = ImageRemoved →
  step (Notify eventName) w =
  let wb := bumped w in
  let wr := mkWorld (env wb) (ui wb) (tasks wb) (nextId wb)
              (trace w ++ [CountRefetched]) (returned wb) in
  launch FetchImages (fetchImages (env w)) (launch FetchMembers (fetchMembers (env w)) wr).
Proof.
  intros He. unfold step.
  assert (handle (Notify eventName) w =
          mkWorld (env w) (apply (SetRefreshTrigger (λ prev, prev + 1)%nat) (ui w))
            (delete (nextId w) (tasks w)) (S (nextId w))
            (trace w ++ [CountRefetched])
            (<[nextId w := Js.Fulfilled Js.Undefined]> (returned w))) as ->
    by (destruct He as [-> | ->]; unfold bumped; cbn; by rewrite app_nil_r).
  rewrite runEffects_bumped; [done|done|]. cbn. lia.
Qed.

End Listeners.

(** C4, as the code has it.  The hook listens to [ImageAdded] and
    [ImageRemoved] only.  On either, the generation grows by exactly one,
    an updated images count is requested, and nothing else of the state
    changes; the hook has no listener for a member notification, which
    leaves the page as it was. *)
Theorem image_notification_bumps_and_refetches (w : World) (eventName : EventName) :
  eventName = ImageAdded ∨ eventName = ImageRemoved →
  (let w' := step (Notify eventName) w in
   refreshTrigger (ui w') = S (refreshTrigger (ui w))
   ∧ (∃ tr', trace w' = trace w ++ CountRefetched :: tr')
   ∧ members (ui w') = members (ui w) ∧ images (ui w') = images (ui w)
   ∧ message (ui w') = message (ui w) ∧ isProcessing (ui w') = isProcessing (ui w))
  ∧ onLogs MemberAdded = None ∧ onLogs MemberRemoved = None
  ∧ step (Notify MemberAdded) w = w ∧ step (Notify MemberRemoved) w = w.
Proof.
  intros He. split.
  - rewrite (step_notify_image w eventName He). cbv zeta.
    set (wr := mkWorld _ _ _ _ _ _).
    set (wm := launch FetchMembers (fetchMembers (env w)) wr).
    destruct (launch_fetchMembers_frame (env w) wr) as (_ & Hum & _).
    destruct (launch_fetchImages_frame (env w) wm) as (_ & Hui & _).
    destruct (launch_trace_grows FetchMembers (fetchMembers (env w)) wr) as [trm Htm].
    destruct (launch_trace_grows FetchImages (fetchImages (env w)) wm) as [tri Hti].
    fold wm in Hum, Htm. rewrite Hui, Hum, Hti, Htm. cbn.
    repeat split; [lia|]. exists (trm ++ tri). by rewrite <- !app_assoc.
  - repeat split; unfold step; cbn [handle onLogs]; by apply runEffects_same.
Qed.

Lemma image_notification_bumps_and_refetches_witness :
  let w := mount (Sample.envOf (Some 2%Z) (Some 2%Z)) initialState in
  (ImageRemoved = ImageAdded ∨ ImageRemoved = ImageRemoved)
  ∧ refreshTrigger (ui (step (Notify ImageRemoved) w)) = S (refreshTrigger (ui w)).
Proof.
  intros w. split; [by right|].
  destruct (image_notification_bumps_and_refetches w ImageRemoved ltac:(by right))
    as [(H & _) _].
  exact H.
Defined.

(** C4 fails as stated.  A member is added while the page shows two
    members and two images: the notification bumps nothing and requests
    no count. *)
Lemma member_notification_is_not_heard :
  let w := mount (Sample.envOf (Some 2%Z) (Some 2%Z)) initialState in
  let w' := step (Notify MemberAdded) w in
  refreshTrigger (ui w') = refreshTrigger (ui w)
  ∧ ¬ (refreshTrigger (ui w) < refreshTrigger (ui w'))%nat
  ∧ trace w' = trace w
  ∧ (CountRefetched ∉ trace w')
  ∧ onLogs MemberAdded = None.
Proof.
  vm_compute. repeat split; try lia.
  intros H. repeat (apply elem_of_cons in H as [H|H]; [discriminate|]).
  by apply elem_of_nil in H.
Qed.

(** * What a mutation writes, reports and returns *)

Section Settling.
Context (o : Outside).

Lemma addImage_settles e imageName numReplicas s tr :
  settled (runWith o (addImage e imageName numReplicas) s tr) = Js.Fulfilled Js.Undefined.
Proof.
  rewrite addImage_run.
  destruct (canteenContract e), (writeContractAsync e); try done.
  cbv zeta. destruct (Js.BigInt numReplicas); [|done].
  by destruct (walletWrite o _).
Qed.

Lemma removeImage_settles e imageName s tr :
  settled (runWith o (removeImage e imageName) s tr) = Js.Fulfilled Js.Undefined.
Proof.
  rewrite removeImage_run.
  destruct (canteenContract e), (writeContractAsync e); try done.
  cbv zeta. by destruct (walletWrite o _).
Qed.

Lemma handleAddImage_run e s0 s tr :
  runWith o (handleAddImage e s0) s tr =
  if negb (Js.truthyString (addImageName s0)) || negb (Js.truthyString (addImageReplicas s0))
  then mkOutcome s tr (Js.Fulfilled Js.Undefined)
  else
    let r := runWith o (addImage e (addImageName s0) (Js.parseInt (addImageReplicas s0))) s tr in
    mkOutcome (apply (SetAddImageReplicas "3") (apply (SetAddImageName "") (final r)))
      (effects r) (Js.Fulfilled Js.Undefined).
Proof.
  unfold handleAddImage. destruct (_ || _); [done|].
  rewrite runWith_bind. cbv zeta. rewrite addImage_settles. cbn.
  by rewrite !app_nil_r.
Qed.

Lemma handleRemoveImage_run e s0 s tr :
  runWith o (handleRemoveImage e s0) s tr =
  if negb (Js.truthyString (removeImageName s0))
  then mkOutcome s tr (Js.Fulfilled Js.Undefined)
  else
    let r := runWith o (removeImage e (removeImageName s0)) s tr in
    mkOutcome (apply (SetRemoveImageName "") (final r)) (effects r)
      (Js.Fulfilled Js.Undefined).
Proof.
  unfold handleRemoveImage. destruct (negb _); [done|].
  rewrite runWith_bind. cbv zeta. rewrite removeImage_settles. cbn.
  by rewrite !app_nil_r.
Qed.

End Settling.

(** C5, as the code has it.  The replica count reaches the registry
    write in the clear: every write issued by [addImage] carries the image
    name and [BigInt(numReplicas)], no argument is a byte blob, and the
    function is the same whatever the encryption collaborator is. *)
Theorem replica_count_is_written_in_clear (o : Outside) (e : Env) (imageName : string)
    (numReplicas : Js.Number) (s : State) (req : WriteRequest) :
  req ∈ writesOf (effects (runWith o (addImage e imageName numReplicas) s [])) →
  (∃ z, Js.BigInt numReplicas = Js.Fulfilled z
        ∧ args req = [AString imageName; ABigInt z])
  ∧ (∀ blob, ABytes blob ∉ args req)
  ∧ ∀ enc,
      addImage (mkEnv (canteenContract e) (membersCount e) (imagesCount e)
                  (ethersReadonlyProvider e) (writeContractAsync e) enc)
        imageName numReplicas
      = addImage e imageName numReplicas.
Proof.
  intros Hreq.
  assert (Henc : ∀ enc,
             addImage (mkEnv (canteenContract e) (membersCount e) (imagesCount e)
                         (ethersReadonlyProvider e) (writeContractAsync e) enc)
               imageName numReplicas
             = addImage e imageName numReplicas) by reflexivity.
  revert Hreq. rewrite addImage_writes. cbn [writesOf omap list_omap app].
  destruct (canteenContract e) as [c|], (writeContractAsync e),
    (Js.BigInt numReplicas) as [z|err]; try (intros H; by apply elem_of_nil in H).
  intros ->%list_elem_of_singleton. repeat split; [by exists z| |exact Henc].
  intros blob H. cbn in H.
  repeat (apply elem_of_cons in H as [H|H]; [discriminate|]).
  by apply elem_of_nil in H.
Qed.

Lemma replica_count_is_written_in_clear_witness :
  addRequest Sample.canteen "nginx" 3
    ∈ writesOf (effects (runWith Sample.registry
                           (addImage (Sample.envOf (Some 2%Z) (Some 2%Z)) "nginx" (Js.ofZ 3))
                           initialState []))
  ∧ ∃ z, Js.BigInt (Js.ofZ 3) = Js.Fulfilled z
         ∧ args (addRequest Sample.canteen "nginx" 3) = [AString "nginx"; ABigInt z].
Proof.
  assert (H : addRequest Sample.canteen "nginx" 3
                ∈ writesOf (effects (runWith Sample.registry
                                       (addImage (Sample.envOf (Some 2%Z) (Some 2%Z))
                                          "nginx" (Js.ofZ 3))
                                       initialState [])))
    by (vm_compute; constructor).
  split; [exact H|].
  exact (proj1 (replica_count_is_written_in_clear _ _ _ _ _ _ H)).
Defined.

(** C5 fails as stated.  With an encryption collaborator that is ready,
    [addImage("nginx", 3)] writes the number 3 itself, not the blob the
    collaborator gives for 3. *)
Lemma replica_count_is_not_encrypted :
  let e := Sample.envOf (Some 2%Z) (Some 2%Z) in
  let r := runWith Sample.registry (addImage e "nginx" (Js.ofZ 3)) initialState [] in
  canEncrypt (encryptionContext e) = true
  ∧ (args <$> writesOf (effects r)) = [[AString "nginx"; ABigInt 3]]
  ∧ (args <$> writesOf (effects r))
    ≠ [[AString "nginx"; ABytes (encryptWith (encryptionContext e) 3)]].
Proof.
  vm_compute. repeat split; discriminate.
Qed.

(** C6, as the code has it.  When the registry write succeeds the
    message names the transaction, the generation grows by exactly one,
    an updated images count is requested and [isProcessing] is released;
    the function has no [return] statement, so its promise is fulfilled
    with [undefined], not with the transaction reference. *)
Theorem successful_write_reports_and_bumps (o : Outside) (e : Env) (c : ContractInfo)
    (imageName : string) (numReplicas : Js.Number) (z : Z) (tx : string)
    (s : State) (tr : list Effect) :
  canteenContract e = Some c → writeContractAsync e = true →
  (Js.BigInt numReplicas = Js.Fulfilled z →
   walletWrite o (addRequest c imageName z) = Js.Fulfilled tx →
   let r := runWith o (addImage e imageName numReplicas) s tr in
   message (final r) = "Image added! Tx: " +:+ tx
   ∧ refreshTrigger (final r) = S (refreshTrigger s)
   ∧ effects r = tr ++ [Invoked (WriteContractAsync (addRequest c imageName z));
                        CountRefetched]
   ∧ isProcessing (final r) = false
   ∧ settled r = Js.Fulfilled Js.Undefined)
  ∧ (walletWrite o (removeRequest c imageName) = Js.Fulfilled tx →
     let r := runWith o (removeImage e imageName) s tr in
     message (final r) = "Image removed! Tx: " +:+ tx
     ∧ refreshTrigger (final r) = S (refreshTrigger s)
     ∧ effects r = tr ++ [Invoked (WriteContractAsync (removeRequest c imageName));
                          CountRefetched]
     ∧ isProcessing (final r) = false
     ∧ settled r = Js.Fulfilled Js.Undefined).
Proof.
  intros Hc Hw. split.
  - intros Hz Htx r. subst r. rewrite addImage_run, Hc, Hw. cbv zeta.
    rewrite Hz, Htx. cbn -[String.append]. repeat split. lia.
  - intros Htx r. subst r. rewrite removeImage_run, Hc, Hw. cbv zeta.
    rewrite Htx. cbn -[String.append]. repeat split. lia.
Qed.

Lemma successful_write_reports_and_bumps_witness :
  let e := Sample.envOf (Some 2%Z) (Some 2%Z) in
  (canteenContract e = Some Sample.canteen ∧ writeContractAsync e = true
   ∧ Js.BigInt (Js.ofZ 3) = Js.Fulfilled 3%Z
   ∧ walletWrite Sample.registry (addRequest Sample.canteen "nginx" 3) = Js.Fulfilled "0x9f3c")
  ∧ message (final (runWith Sample.registry (addImage e "nginx" (Js.ofZ 3)) initialState []))
    = "Image added! Tx: 0x9f3c".
Proof.
  intros e. split; [repeat split; reflexivity|].
  destruct (successful_write_reports_and_bumps Sample.registry e Sample.canteen "nginx"
              (Js.ofZ 3) 3 "0x9f3c" initialState [] eq_refl eq_refl) as [Hadd _].
  exact (proj1 (Hadd eq_refl eq_refl)).
Defined.

(** C6 fails as stated.  The wallet confirms the write with the
    reference [0x9f3c]; the caller of [addImage] and the caller of
    [removeImage] both get [undefined]. *)
Lemma transaction_reference_is_not_returned :
  let e := Sample.envOf (Some 2%Z) (Some 2%Z) in
  let ra := runWith Sample.registry (addImage e "nginx" (Js.ofZ 3)) initialState [] in
  let rr := runWith Sample.registry (removeImage e "nginx") initialState [] in
  walletWrite Sample.registry (addRequest Sample.canteen "nginx" 3) = Js.Fulfilled "0x9f3c"
  ∧ settled ra = Js.Fulfilled Js.Undefined
  ∧ settled ra ≠ Js.Fulfilled (Js.Str "0x9f3c")
  ∧ settled rr = Js.Fulfilled Js.Undefined
  ∧ settled rr ≠ Js.Fulfilled (Js.Str "0x9f3c").
Proof.
  vm_compute. repeat split; discriminate.
Qed.

(** What [error.message || d] is, case by case. *)
Lemma orElse_text (text d : string) : text ≠ "" → Js.orElse (Some text) d = text.
Proof. by destruct text. Qed.

Lemma orElse_fallback (o : option string) (d : string) :
  o = None ∨ o = Some "" → Js.orElse o d = d.
Proof. by intros [->| ->]. Qed.

(** C7. When the registry write fails, [isProcessing] is false again, the
    message is ["Error: "] followed by the text the failure carries,
    whatever that text is, and ["Error: Failed to add image"] (or
    ["... remove image"]) when the failure carries no text or an empty
    one; the generation, the lists and the counts shown are as before,
    and the write was invoked exactly once, with no refetch.  On every
    path through either function that took the flag, whatever the wallet
    answers, [isProcessing] ends false. *)
Theorem failed_write_releases_and_reports (o : Outside) (e : Env) (c : ContractInfo)
    (imageName : string) (numReplicas : Js.Number) (z : Z) (err : Js.Error)
    (s : State) (tr : list Effect) :
  canteenContract e = Some c → writeContractAsync e = true →
  (Js.BigInt numReplicas = Js.Fulfilled z →
   walletWrite o (addRequest c imageName z) = Js.Rejected err →
   let r := runWith o (addImage e imageName numReplicas) s tr in
   isProcessing (final r) = false
   ∧ (∀ text, Js.errMessage err = Some text → text ≠ "" →
        message (final r) = "Error: " +:+ text)
   ∧ (Js.errMessage err = None ∨ Js.errMessage err = Some "" →
        message (final r) = "Error: Failed to add image")
   ∧ refreshTrigger (final r) = refreshTrigger s
   ∧ members (final r) = members s ∧ images (final r) = images s
   ∧ viewMembersCount (final r) = viewMembersCount s
   ∧ viewImagesCount (final r) = viewImagesCount s
   ∧ effects r = tr ++ [Invoked (WriteContractAsync (addRequest c imageName z));
                        Logged "Error adding image:"])
  ∧ (walletWrite o (removeRequest c imageName) = Js.Rejected err →
     let r := runWith o (removeImage e imageName) s tr in
     isProcessing (final r) = false
     ∧ (∀ text, Js.errMessage err = Some text → text ≠ "" →
          message (final r) = "Error: " +:+ text)
     ∧ (Js.errMessage err = None ∨ Js.errMessage err = Some "" →
          message (final r) = "Error: Failed to remove image")
     ∧ refreshTrigger (final r) = refreshTrigger s
     ∧ members (final r) = members s ∧ images (final r) = images s
     ∧ viewMembersCount (final r) = viewMembersCount s
     ∧ viewImagesCount (final r) = viewImagesCount s
     ∧ effects r = tr ++ [Invoked (WriteContractAsync (removeRequest c imageName));
                          Logged "Error removing image:"])
  ∧ (∀ o' imageName' numReplicas' s' tr',
       isProcessing (final (runWith o' (addImage e imageName' numReplicas') s' tr')) = false
       ∧ isProcessing (final (runWith o' (removeImage e imageName') s' tr')) = false).
Proof.
  intros Hc Hw. split; [|split].
  - intros Hz Herr r. subst r. rewrite addImage_run, Hc, Hw. cbv zeta.
    rewrite Hz, Herr. cbn. split; [done|]. split; [|split; [|done]].
    + intros text -> Htext. by rewrite orElse_text.
    + intros Hno. by rewrite orElse_fallback.
  - intros Herr r. subst r. rewrite removeImage_run, Hc, Hw. cbv zeta.
    rewrite Herr. cbn. split; [done|]. split; [|split; [|done]].
    + intros text -> Htext. by rewrite orElse_text.
    + intros Hno. by rewrite orElse_fallback.
  - intros o' imageName' numReplicas' s' tr'. split.
    + rewrite addImage_run, Hc, Hw. cbv zeta.
      destruct (Js.BigInt numReplicas'); [|done]. by destruct (walletWrite o' _).
    + rewrite removeImage_run, Hc, Hw. cbv zeta. by destruct (walletWrite o' _).
Qed.

(** The transport error of the scenario, whose text is shown after
    ["Error: "]; and a wallet that rejects with an error that carries no
    text, for which the generic text of the operation is shown. *)
Lemma failed_write_releases_and_reports_witness :
  let e := Sample.envOf (Some 2%Z) (Some 2%Z) in
  let silent := Js.mkError "Error" None in
  let mute := mkOutside (importEthers Sample.offline) (contractMembers Sample.offline)
                (contractGetMemberDetails Sample.offline) (contractImages Sample.offline)
                (contractGetImageDetails Sample.offline) (λ _, Js.Rejected silent) in
  (canteenContract e = Some Sample.canteen ∧ writeContractAsync e = true
   ∧ Js.BigInt (Js.ofZ 3) = Js.Fulfilled 3%Z
   ∧ walletWrite Sample.offline (addRequest Sample.canteen "nginx" 3)
     = Js.Rejected Sample.transportError
   ∧ Js.errMessage Sample.transportError = Some "HTTP request failed."
   ∧ "HTTP request failed." ≠ ""
   ∧ walletWrite mute (removeRequest Sample.canteen "nginx") = Js.Rejected silent
   ∧ Js.errMessage silent = None)
  ∧ (let r := runWith Sample.offline (addImage e "nginx" (Js.ofZ 3)) initialState [] in
     isProcessing (final r) = false
     ∧ message (final r) = "Error: HTTP request failed.")
  ∧ (let r := runWith mute (removeImage e "nginx") initialState [] in
     isProcessing (final r) = false
     ∧ message (final r) = "Error: Failed to remove image").
Proof.
  intros e silent mute. split; [repeat split; first [reflexivity | discriminate]|].
  destruct (failed_write_releases_and_reports Sample.offline e Sample.canteen "nginx"
              (Js.ofZ 3) 3 Sample.transportError initialState [] eq_refl eq_refl)
    as [Hadd _].
  destruct (Hadd eq_refl eq_refl) as (H1 & H2 & _).
  destruct (failed_write_releases_and_reports mute e Sample.canteen "nginx"
              (Js.ofZ 3) 3 silent initialState [] eq_refl eq_refl)
    as (_ & Hrem & _).
  destruct (Hrem eq_refl) as (H3 & _ & H4 & _).
  split; [split; [exact H1|]|split; [exact H3|]].
  - apply (H2 "HTTP request failed." eq_refl). discriminate.
  - apply H4. by left.
Defined.

(** C10. Whatever the wallet answers and whatever number is passed, the
    promise returned by [addImage] or [removeImage], and that of the two
    form handlers awaiting them, is fulfilled with [undefined]: the
    [BigInt] conversion and the write are both inside the [try] block.
    A run ends with one of three messages, and a failure, of the
    conversion or of the write, shows only as the message that starts
    with ["Error: "]. *)
Theorem mutation_promise_never_rejects (o : Outside) (e : Env) (imageName : string)
    (numReplicas : Js.Number) (form s : State) (tr : list Effect) :
  settled (runWith o (addImage e imageName numReplicas) s tr) = Js.Fulfilled Js.Undefined
  ∧ settled (runWith o (removeImage e imageName) s tr) = Js.Fulfilled Js.Undefined
  ∧ settled (runWith o (handleAddImage e form) s tr) = Js.Fulfilled Js.Undefined
  ∧ settled (runWith o (handleRemoveImage e form) s tr) = Js.Fulfilled Js.Undefined
  ∧ (let r := runWith o (addImage e imageName numReplicas) s tr in
     message (final r) = "Contract not available"
     ∨ (∃ c z tx, walletWrite o (addRequest c imageName z) = Js.Fulfilled tx
                  ∧ message (final r) = "Image added! Tx: " +:+ tx)
     ∨ (∃ err, (Js.BigInt numReplicas = Js.Rejected err
                ∨ ∃ c z, walletWrite o (addRequest c imageName z) = Js.Rejected err)
               ∧ message (final r)
                 = "Error: " +:+ Js.orElse (Js.errMessage err) "Failed to add image"))
  ∧ (let r := runWith o (removeImage e imageName) s tr in
     message (final r) = "Contract not available"
     ∨ (∃ c tx, walletWrite o (removeRequest c imageName) = Js.Fulfilled tx
                ∧ message (final r) = "Image removed! Tx: " +:+ tx)
     ∨ (∃ c err, walletWrite o (removeRequest c imageName) = Js.Rejected err
                 ∧ message (final r)
                   = "Error: " +:+ Js.orElse (Js.errMessage err) "Failed to remove image")).
Proof.
  split; [apply addImage_settles|]. split; [apply removeImage_settles|].
  split; [rewrite handleAddImage_run; by destruct (_ || _)|].
  split; [rewrite handleRemoveImage_run; by destruct (negb _)|].
  split.
  - rewrite addImage_run.
    destruct (canteenContract e) as [c|]; [|by left].
    destruct (writeContractAsync e); [|by left]. cbv zeta.
    destruct (Js.BigInt numReplicas) as [z|err] eqn:Hz.
    + destruct (walletWrite o (addRequest c imageName z)) as [tx|err] eqn:Hw.
      * right. left. by exists c, z, tx.
      * right. right. exists err. split; [right; by exists c, z|done].
    + right. right. exists err. split; [by left|done].
  - rewrite removeImage_run.
    destruct (canteenContract e) as [c|]; [|by left].
    destruct (writeContractAsync e); [|by left]. cbv zeta.
    destruct (walletWrite o (removeRequest c imageName)) as [tx|err] eqn:Hw.
    + right. left. by exists c, tx.
    + right. right. by exists c, err.
Qed.

(** C8, as the code has it.  [addImage] coerces and does not validate:
    a count that is not an integer throws before the write, every
    integer, negative ones included, is passed on as [BigInt] of itself,
    and the image name is passed as it comes, empty or not.  Through the
    dashboard's [handleAddImage] the name is never empty and the count is
    [parseInt] of the replicas field. *)
Theorem write_arguments_are_coerced_not_validated (o : Outside) (e : Env)
    (c : ContractInfo) (s : State) :
  canteenContract e = Some c → writeContractAsync e = true →
  (∀ imageName numReplicas,
     writesOf (effects (runWith o (addImage e imageName numReplicas) s [])) =
     match Js.BigInt numReplicas with
     | Js.Fulfilled z => [addRequest c imageName z]
     | Js.Rejected _ => []
     end)
  ∧ (∀ imageName z,
       writesOf (effects (runWith o (addImage e imageName (Js.ofZ z)) s []))
       = [addRequest c imageName z])
  ∧ (∀ form req,
       req ∈ writesOf (effects (runWith o (handleAddImage e form) s [])) →
       addImageName form ≠ ""
       ∧ ∃ z, Js.parseInt (addImageReplicas form) = Js.ofZ z
              ∧ req = addRequest c (addImageName form) z).
Proof.
  intros Hc Hw.
  assert (Hadd : ∀ imageName numReplicas,
             writesOf (effects (runWith o (addImage e imageName numReplicas) s [])) =
             match Js.BigInt numReplicas with
             | Js.Fulfilled z => [addRequest c imageName z]
             | Js.Rejected _ => []
             end).
  { intros imageName numReplicas. rewrite addImage_writes, Hc, Hw. cbn.
    by destruct (Js.BigInt numReplicas). }
  split; [exact Hadd|]. split.
  - intros imageName z. by rewrite Hadd, BigInt_ofZ.
  - intros form req. rewrite handleAddImage_run.
    destruct (addImageName form) as [|ch rest] eqn:Hname;
      [cbn; intros H; by apply elem_of_nil in H|].
    cbn [Js.truthyString negb orb].
    destruct (negb (Js.truthyString (addImageReplicas form)));
      [cbn; intros H; by apply elem_of_nil in H|].
    cbv zeta. cbn [effects]. rewrite Hadd.
    destruct (parseInt_integer_or_NaN (addImageReplicas form)) as [-> | [z ->]].
    + cbn. intros H. by apply elem_of_nil in H.
    + rewrite BigInt_ofZ. intros ->%list_elem_of_singleton. split; [done|by exists z].
Qed.

Lemma write_arguments_are_coerced_not_validated_witness :
  let e := Sample.envOf (Some 2%Z) (Some 2%Z) in
  (canteenContract e = Some Sample.canteen ∧ writeContractAsync e = true)
  ∧ writesOf (effects (runWith Sample.registry (addImage e "nginx" (Js.ofZ 3))
                         initialState []))
    = [addRequest Sample.canteen "nginx" 3].
Proof.
  intros e. split; [split; reflexivity|].
  destruct (write_arguments_are_coerced_not_validated Sample.registry e Sample.canteen
              initialState eq_refl eq_refl) as (_ & H & _).
  exact (H "nginx" 3%Z).
Defined.

(** C8 fails as stated.  Called with an empty name and the count -3,
    [addImage] reaches the write with both; and a form holding the name
    [nginx] and the replicas text [-3] is submitted with the negative
    count. *)
Lemma empty_name_and_negative_count_reach_write :
  let e := Sample.envOf (Some 2%Z) (Some 2%Z) in
  let form := mkState "" false [] [] 0 "nginx" "-3" "" in
  (args <$> writesOf (effects (runWith Sample.registry (addImage e "" (Js.ofZ (-3)))
                                 initialState [])))
  = [[AString ""; ABigInt (-3)]]
  ∧ (args <$> writesOf (effects (runWith Sample.registry (handleAddImage e form) form [])))
    = [[AString "nginx"; ABigInt (-3)]]
  ∧ ¬ (0 ≤ -3)%Z.
Proof.
  vm_compute. repeat split. intros H. by apply H.
Qed.

(** * Beyond the claims: invariants of the page *)

Section Obeys.
Context {P : Action → Prop} {C : Call → Prop}.

Lemma obeys_weaken {A} (Q Q' : A → Prop) (m : Async A) :
  (∀ a, Q a → Q' a) → obeys P C Q m → obeys P C Q' m.
Proof.
  intros HQ. induction m as [a|e|a k IH|c k IH]; cbn; [auto|auto| |].
  - intros [Ha Hk]. auto.
  - intros [Hc Hk]. auto.
Qed.

Lemma obeys_bind {A B} (Q : A → Prop) (Q' : B → Prop) (m : Async A) (f : A → Async B) :
  obeys P C Q m → (∀ a, Q a → obeys P C Q' (f a)) → obeys P C Q' (bind m f).
Proof.
  intros Hm Hf. induction m as [a|e|a k IH|c k IH]; cbn in *; [auto|auto| |].
  - destruct Hm. auto.
  - destruct Hm. auto.
Qed.

Lemma obeys_tryCatch {A} (Q : A → Prop) (m : Async A) h :
  obeys P C Q m → (∀ e, obeys P C Q (h e)) → obeys P C Q (tryCatch m h).
Proof.
  intros Hm Hh. induction m as [a|e|a k IH|c k IH]; cbn in *; [auto|auto| |].
  - destruct Hm. auto.
  - destruct Hm. auto.
Qed.

Lemma obeys_tryFinally {A} (Q : A → Prop) (m : Async A) f :
  obeys P C Q m → obeys P C anyValue f → obeys P C Q (tryFinally m f).
Proof.
  intros Hm Hf. induction m as [a|e|a k IH|c k IH]; cbn in *.
  - by apply (obeys_bind anyValue).
  - by apply (obeys_bind anyValue).
  - destruct Hm. auto.
  - destruct Hm. auto.
Qed.

Lemma obeys_await c : C c → obeys P C anyValue (await c).
Proof. intros Hc. split; [done|]. by intros [v|e]. Qed.

Lemma obeys_act a : P a → obeys P C anyValue (act a).
Proof. by split. Qed.

(** Running the synchronous stretch of obedient code: the state moves
    along [R] and what is left is obedient. *)
Lemma exec_obeys {A} (R : State → State → Prop) (Q : A → Prop) (m : Async A) s tr :
  (∀ s, R s s) → (∀ s1 s2 s3, R s1 s2 → R s2 s3 → R s1 s3) →
  (∀ a s, P a → R s (apply a s)) →
  obeys P C Q m →
  R s (exec m s tr).1.1
  ∧ match (exec m s tr).2 with
    | Finished (Js.Fulfilled a) => Q a
    | Finished (Js.Rejected _) => True
    | Suspended c k => C c ∧ ∀ r, obeys P C Q (k r)
    end.
Proof.
  intros Hrefl Htrans Hact. revert s tr.
  induction m as [a|e|a k IH|c k IH]; intros s tr Hm; cbn in *; [auto|auto| |auto].
  destruct Hm as [Ha Hk]. destruct (IH (apply a s) (tr ++ emit a) Hk) as [HR Hp].
  split; [|done]. eapply Htrans; [by apply Hact|done].
Qed.

End Obeys.

Section Tame.

Lemma follows_refl s : follows s s.
Proof. by repeat split. Qed.

Lemma follows_trans s1 s2 s3 : follows s1 s2 → follows s2 s3 → follows s1 s3.
Proof.
  intros (Hg & Hm & Hi) (Hg' & Hm' & Hi'). repeat split; [lia|auto|auto].
Qed.

Lemma follows_apply a s : tame a → follows s (apply a s).
Proof.
  destruct a; cbn; intros Ha; repeat split; cbn; try done.
  rewrite Ha. lia.
Qed.

Lemma tame_bump : tame (SetRefreshTrigger (λ prev, prev + 1)%nat).
Proof. intros n. lia. Qed.

Lemma tame_membersLoop n i acc : obeys tame anyCall anyValue (membersLoop n i acc).
Proof.
  revert i acc. induction n as [|n IH]; intros i acc; [done|].
  cbn [membersLoop]. apply (obeys_bind anyValue); [|auto].
  apply obeys_tryCatch; [|by cbn].
  apply (obeys_bind anyValue); [by apply obeys_await|]. intros host _.
  apply (obeys_bind anyValue); [by apply obeys_await|]. intros d _.
  cbn. by destruct (d.1.2).
Qed.

Lemma tame_imagesLoop n i acc :
  Forall (λ img, active img = true) acc →
  obeys tame anyCall (Forall (λ img, active img = true)) (imagesLoop n i acc).
Proof.
  revert i acc. induction n as [|n IH]; intros i acc Hacc; [done|].
  cbn [imagesLoop]. apply (obeys_bind (Forall (λ img, active img = true))); [|auto].
  apply obeys_tryCatch; [|by cbn].
  apply (obeys_bind anyValue); [by apply obeys_await|]. intros imageName _.
  apply (obeys_bind anyValue); [by apply obeys_await|]. intros d _.
  cbn. destruct (d.2); cbn; [|done].
  apply Forall_app. split; [done|]. by repeat constructor.
Qed.

Lemma tame_fetchMembers e : obeys tame anyCall anyValue (fetchMembers e).
Proof.
  destruct (fetchMembers_cases e) as [->|(c & n & p & _ & _ & _ & _ & ->)]; [done|].
  unfold reconcileMembers.
  apply (obeys_bind anyValue); [by apply obeys_await|]. intros _ _.
  apply (obeys_bind anyValue); [apply tame_membersLoop|]. intros l _. by cbn.
Qed.

Lemma tame_fetchImages e : obeys tame anyCall anyValue (fetchImages e).
Proof.
  destruct (fetchImages_cases e) as [->|(c & n & p & _ & _ & _ & _ & ->)]; [done|].
  unfold reconcileImages.
  apply (obeys_bind anyValue); [by apply obeys_await|]. intros _ _.
  apply (obeys_bind (Forall (λ img, active img = true)));
    [by apply tame_imagesLoop|].
  intros l Hl. by cbn.
Qed.

Lemma tame_addImage e imageName numReplicas :
  obeys tame anyCall anyValue (addImage e imageName numReplicas).
Proof.
  unfold addImage. destruct (canteenContract e) as [c|], (writeContractAsync e);
    try (by cbn).
  apply (obeys_bind anyValue); [by apply obeys_act|]. intros _ _.
  apply (obeys_bind anyValue); [by apply obeys_act|]. intros _ _.
  apply (obeys_bind anyValue); [|done].
  apply obeys_tryFinally; [|by apply obeys_act].
  apply obeys_tryCatch.
  - apply (obeys_bind anyValue); [by destruct (Js.BigInt numReplicas)|]. intros z _.
    apply (obeys_bind anyValue); [by apply obeys_await|]. intros tx _.
    apply (obeys_bind anyValue); [by apply obeys_act|]. intros _ _.
    apply (obeys_bind anyValue); [apply obeys_act, tame_bump|]. intros _ _.
    by apply obeys_act.
  - intros err. apply (obeys_bind anyValue); [by apply obeys_act|]. intros _ _.
    by apply obeys_act.
Qed.

Lemma tame_removeImage e imageName : obeys tame anyCall anyValue (removeImage e imageName).
Proof.
  unfold removeImage. destruct (canteenContract e) as [c|], (writeContractAsync e);
    try (by cbn).
  apply (obeys_bind anyValue); [by apply obeys_act|]. intros _ _.
  apply (obeys_bind anyValue); [by apply obeys_act|]. intros _ _.
  apply (obeys_bind anyValue); [|done].
  apply obeys_tryFinally; [|by apply obeys_act].
  apply obeys_tryCatch.
  - apply (obeys_bind anyValue); [by apply obeys_await|]. intros tx _.
    apply (obeys_bind anyValue); [by apply obeys_act|]. intros _ _.
    apply (obeys_bind anyValue); [apply obeys_act, tame_bump|]. intros _ _.
    by apply obeys_act.
  - intros err. apply (obeys_bind anyValue); [by apply obeys_act|]. intros _ _.
    by apply obeys_act.
Qed.

Lemma tame_handleAddImage e form : obeys tame anyCall anyValue (handleAddImage e form).
Proof.
  unfold handleAddImage. destruct (_ || _); [done|].
  apply (obeys_bind anyValue); [apply tame_addImage|]. intros _ _. by cbn.
Qed.

Lemma tame_handleRemoveImage e form :
  obeys tame anyCall anyValue (handleRemoveImage e form).
Proof.
  unfold handleRemoveImage. destruct (negb _); [done|].
  apply (obeys_bind anyValue); [apply tame_removeImage|]. intros _ _. by cbn.
Qed.

(** One more stretch of tame code keeps the world tame, moves the state
    along [follows] and touches no task but its own. *)
Lemma advance_tame id from stamp m w :
  tameWorld w → obeys tame anyCall anyValue m →
  let w' := advance id from stamp m w in
  tameWorld w' ∧ follows (ui w) (ui w') ∧ env w' = env w ∧ nextId w' = nextId w
  ∧ ∀ id', id' ≠ id → tasks w' !! id' = tasks w !! id'.
Proof.
  intros Hw Hm.
  destruct (exec_obeys follows anyValue m (ui w) (trace w)
              follows_refl follows_trans follows_apply Hm) as [HR Hp].
  unfold advance. destruct (exec m (ui w) (trace w)) as [[s tr] [r|c k]]; cbn in *.
  - refine (conj _ (conj HR (conj eq_refl (conj eq_refl _)))).
    + intros id' t r' Ht. cbn in Ht. apply lookup_delete_Some in Ht as [_ Ht].
      exact (Hw _ _ _ Ht).
    + intros id' Hid. by rewrite lookup_delete_ne.
  - refine (conj _ (conj HR (conj eq_refl (conj eq_refl _)))).
    + intros id' t r' Ht. cbn in Ht.
      apply lookup_insert_Some in Ht as [[<- <-]|[_ Ht]];
        [apply Hp|exact (Hw _ _ _ Ht)].
    + intros id' Hid. by rewrite lookup_insert_ne.
Qed.

Lemma launch_tame from m w :
  tameWorld w → obeys tame anyCall anyValue m →
  let w' := launch from m w in
  tameWorld w' ∧ follows (ui w) (ui w') ∧ env w' = env w ∧ nextId w' = S (nextId w)
  ∧ ∀ id', id' ≠ nextId w → tasks w' !! id' = tasks w !! id'.
Proof.
  intros Hw Hm. unfold launch.
  apply (advance_tame (nextId w) from (refreshTrigger (ui w)) m
           (mkWorld (env w) (ui w) (tasks w) (S (nextId w)) (trace w) (returned w)));
    done.
Qed.

Lemma runEffects_tame e0 s0 w :
  tameWorld w →
  let w' := runEffects e0 s0 w in
  tameWorld w' ∧ follows (ui w) (ui w') ∧ env w' = env w
  ∧ (nextId w ≤ nextId w')%nat
  ∧ ∀ id', (id' < nextId w)%nat → tasks w' !! id' = tasks w !! id'.
Proof.
  intros Hw. unfold runEffects.
  set (w1 := if decide _ then w else _).
  assert (H1 : tameWorld w1 ∧ follows (ui w) (ui w1) ∧ env w1 = env w
               ∧ (nextId w ≤ nextId w1)%nat
               ∧ ∀ id', (id' < nextId w)%nat → tasks w1 !! id' = tasks w !! id').
  { subst w1. destruct (decide _).
    - refine (conj Hw (conj (follows_refl _) (conj eq_refl (conj (le_n _) _)))). done.
    - destruct (launch_tame FetchMembers (fetchMembers (env w)) w Hw (tame_fetchMembers _))
        as (Hw' & HR & He & Hn & Hf).
      refine (conj Hw' (conj HR (conj He (conj _ _)))); [lia|].
      intros id' Hid. apply Hf. lia. }
  destruct H1 as (Hw1 & HR1 & He1 & Hn1 & Hf1). clearbody w1.
  destruct (decide _); [exact (conj Hw1 (conj HR1 (conj He1 (conj Hn1 Hf1))))|].
  destruct (launch_tame FetchImages (fetchImages (env w1)) w1 Hw1 (tame_fetchImages _))
    as (Hw2 & HR & He & Hn & Hf).
  refine (conj Hw2 (conj (follows_trans _ _ _ HR1 HR) (conj _ (conj _ _))));
    [congruence|lia|].
  intros id' Hid. rewrite Hf by lia. by apply Hf1.
Qed.

Lemma tame_onLogs eventName h :
  onLogs eventName = Some h → obeys tame anyCall anyValue (h;; Ret Js.Undefined).
Proof.
  destruct eventName; intros [= <-]; cbn; (split; [apply tame_bump|done]).
Qed.

Lemma tame_refresh : obeys tame anyCall anyValue (refresh;; Ret Js.Undefined).
Proof. cbn. split; [apply tame_bump|done]. Qed.

Lemma handle_tame ev w :
  tameWorld w →
  let w' := handle ev w in
  tameWorld w' ∧ follows (ui w) (ui w') ∧ env w' = match ev with Rerender e => e | _ => env w end
  ∧ (nextId w ≤ nextId w')%nat
  ∧ ∀ id', (id' < nextId w)%nat →
           (∀ o, ev ≠ Settle id' o) → tasks w' !! id' = tasks w !! id'.
Proof.
  intros Hw.
  assert (Hlaunch : ∀ from m, obeys tame anyCall anyValue m →
            let w' := launch from m w in
            tameWorld w' ∧ follows (ui w) (ui w') ∧ env w' = env w
            ∧ (nextId w ≤ nextId w')%nat
            ∧ ∀ id', (id' < nextId w)%nat → tasks w' !! id' = tasks w !! id').
  { intros from m Hm. destruct (launch_tame from m w Hw Hm) as (H1 & H2 & H3 & Hn & Hf).
    refine (conj H1 (conj H2 (conj H3 (conj _ _)))); [lia|].
    intros id' Hid. apply Hf. lia. }
  assert (Hsame : tameWorld w ∧ follows (ui w) (ui w) ∧ env w = env w
                  ∧ (nextId w ≤ nextId w)%nat
                  ∧ ∀ id', (id' < nextId w)%nat → tasks w !! id' = tasks w !! id')
    by exact (conj Hw (conj (follows_refl _) (conj eq_refl (conj (le_n _) (λ _ _, eq_refl))))).
  destruct ev as [id o|eventName| |imageName numReplicas|imageName| | |e];
    cbn [handle].
  - destruct (tasks w !! id) as [t|] eqn:Ht.
    + destruct (advance_tame id (origin t) (startedAt t)
                  (resume t (respond o (pending t))) w Hw (Hw id t _ Ht))
        as (H1 & H2 & H3 & Hn & Hf).
      refine (conj H1 (conj H2 (conj H3 (conj _ _)))); [lia|].
      intros id' _ Hne. apply Hf. intros ->. by apply (Hne o).
    + destruct Hsame as (H1 & H2 & H3 & Hn & Hf).
      exact (conj H1 (conj H2 (conj H3 (conj Hn (λ id' Hid _, Hf id' Hid))))).
  - destruct (onLogs eventName) as [h|] eqn:Hh.
    + destruct (Hlaunch Handler _ (tame_onLogs _ _ Hh)) as (H1 & H2 & H3 & Hn & Hf).
      exact (conj H1 (conj H2 (conj H3 (conj Hn (λ id' Hid _, Hf id' Hid))))).
    + destruct Hsame as (H1 & H2 & H3 & Hn & Hf).
      exact (conj H1 (conj H2 (conj H3 (conj Hn (λ id' Hid _, Hf id' Hid))))).
  - destruct (Hlaunch Handler _ tame_refresh) as (H1 & H2 & H3 & Hn & Hf).
    exact (conj H1 (conj H2 (conj H3 (conj Hn (λ id' Hid _, Hf id' Hid))))).
  - destruct (Hlaunch AddImage _ (tame_addImage (env w) imageName numReplicas))
      as (H1 & H2 & H3 & Hn & Hf).
    exact (conj H1 (conj H2 (conj H3 (conj Hn (λ id' Hid _, Hf id' Hid))))).
  - destruct (Hlaunch RemoveImage _ (tame_removeImage (env w) imageName))
      as (H1 & H2 & H3 & Hn & Hf).
    exact (conj H1 (conj H2 (conj H3 (conj Hn (λ id' Hid _, Hf id' Hid))))).
  - destruct (Hlaunch Handler _ (tame_handleAddImage (env w) (ui w)))
      as (H1 & H2 & H3 & Hn & Hf).
    exact (conj H1 (conj H2 (conj H3 (conj Hn (λ id' Hid _, Hf id' Hid))))).
  - destruct (Hlaunch Handler _ (tame_handleRemoveImage (env w) (ui w)))
      as (H1 & H2 & H3 & Hn & Hf).
    exact (conj H1 (conj H2 (conj H3 (conj Hn (λ id' Hid _, Hf id' Hid))))).
  - refine (conj _ (conj (follows_refl _) (conj eq_refl (conj (le_n _) (λ _ _ _, eq_refl))))).
    exact Hw.
Qed.

Lemma step_tame ev w :
  tameWorld w → tameWorld (step ev w) ∧ follows (ui w) (ui (step ev w)).
Proof.
  intros Hw. unfold step.
  destruct (handle_tame ev w Hw) as (Hw1 & HR1 & _).
  destruct (runEffects_tame (env w) (ui w) (handle ev w) Hw1) as (Hw2 & HR2 & _).
  split; [exact Hw2|]. by eapply follows_trans.
Qed.

Lemma mount_tame e s : tameWorld (mount e s) ∧ follows s (ui (mount e s)).
Proof.
  unfold mount.
  assert (H0 : tameWorld (mkWorld e s ∅ 0 [] ∅)) by (intros id t r Ht; done).
  destruct (launch_tame FetchMembers (fetchMembers e) _ H0 (tame_fetchMembers _))
    as (H1 & HR1 & _).
  destruct (launch_tame FetchImages (fetchImages e) _ H1 (tame_fetchImages _))
    as (H2 & HR2 & _).
  split; [done|]. by eapply follows_trans.
Qed.

Lemma run_tame evs w :
  tameWorld w → tameWorld (run evs w) ∧ follows (ui w) (ui (run evs w)).
Proof.
  revert w. induction evs as [|ev evs IH]; intros w Hw.
  - split; [done|apply follows_refl].
  - rewrite run_cons. destruct (step_tame ev w Hw) as [Hw1 HR1].
    destruct (IH _ Hw1) as [Hw2 HR2]. split; [done|]. by eapply follows_trans.
Qed.

End Tame.

Section Fresh.

Lemma advance_fresh id from stamp m w :
  (id < nextId w)%nat → fresh w → fresh (advance id from stamp m w).
Proof.
  intros Hid Hw. unfold advance.
  destruct (exec m (ui w) (trace w)) as [[s tr] [r|c k]]; intros id' Hid'; cbn in *.
  - rewrite lookup_delete_ne by lia. by apply Hw.
  - rewrite lookup_insert_ne by lia. by apply Hw.
Qed.

Lemma launch_fresh from m w : fresh w → fresh (launch from m w).
Proof.
  intros Hw. unfold launch. apply advance_fresh; [cbn; lia|].
  intros id Hid. cbn in *. apply Hw. lia.
Qed.

Lemma runEffects_fresh e0 s0 w : fresh w → fresh (runEffects e0 s0 w).
Proof.
  intros Hw. unfold runEffects.
  set (w1 := if decide _ then w else _).
  assert (Hw1 : fresh w1) by (subst w1; destruct (decide _); [done|by apply launch_fresh]).
  clearbody w1. destruct (decide _); [done|by apply launch_fresh].
Qed.

Lemma handle_fresh ev w : fresh w → fresh (handle ev w).
Proof.
  intros Hw. destruct ev as [id o|eventName| |imageName numReplicas|imageName| | |e];
    cbn [handle]; try by apply launch_fresh.
  - destruct (tasks w !! id) as [t|] eqn:Ht; [|done].
    apply advance_fresh; [|done].
    destruct (decide (id < nextId w)%nat) as [|Hge]; [done|].
    rewrite Hw in Ht by lia. done.
  - destruct (onLogs eventName); [by apply launch_fresh|done].
  - done.
Qed.

Lemma step_fresh ev w : fresh w → fresh (step ev w).
Proof. intros Hw. by apply runEffects_fresh, handle_fresh. Qed.

Lemma run_fresh evs w : fresh w → fresh (run evs w).
Proof.
  revert w. induction evs as [|ev evs IH]; intros w Hw; [done|].
  rewrite run_cons. by apply IH, step_fresh.
Qed.

Lemma mount_fresh e s : fresh (mount e s).
Proof.
  unfold mount. apply launch_fresh, launch_fresh. intros id _. done.
Qed.

End Fresh.

(** X1. The refresh generation only moves forward: along any sequence of
    events of a mounted page, in any interleaving, [refreshTrigger] never
    decreases.  Every call of its setter in the two files is
    [prev => prev + 1]. *)
Theorem generation_never_decreases (e : Env) (s : State) (evs evs' : list Event) :
  (refreshTrigger s ≤ refreshTrigger (ui (run evs (mount e s))))%nat
  ∧ (refreshTrigger (ui (run evs (mount e s)))
     ≤ refreshTrigger (ui (run (evs ++ evs') (mount e s))))%nat.
Proof.
  destruct (mount_tame e s) as [H0 (Hg0 & _)].
  destruct (run_tame evs _ H0) as [H1 (Hg1 & _)].
  rewrite run_app. destruct (run_tame evs' _ H1) as [_ (Hg2 & _)].
  split; [lia|done].
Qed.

(** X2. The status message is never cleared: once a message is shown, every
    later state of the page shows a message, whatever happens next.  No
    call of [setMessage] in the hook passes an empty string. *)
Theorem message_is_never_cleared (e : Env) (s : State) (evs evs' : list Event) :
  message (ui (run evs (mount e s))) ≠ "" →
  message (ui (run (evs ++ evs') (mount e s))) ≠ "".
Proof.
  destruct (mount_tame e s) as [H0 _].
  destruct (run_tame evs _ H0) as [H1 _].
  rewrite run_app. destruct (run_tame evs' _ H1) as [_ (_ & Hm & _)].
  exact Hm.
Qed.

(** After a submission the message is shown, and a refresh, a
    notification and the passes that follow leave it there. *)
Lemma message_is_never_cleared_witness :
  let w := mount (Sample.envOf (Some 2%Z) (Some 2%Z)) initialState in
  message (ui (run [CallAddImage "nginx" (Js.ofZ 3)] w)) ≠ ""
  ∧ message (ui (run ([CallAddImage "nginx" (Js.ofZ 3)]
                        ++ [Settle 2 Sample.offline; CallRefresh; Notify ImageAdded;
                            Settle 0 Sample.registry]) w)) ≠ "".
Proof.
  intros w.
  assert (H : message (ui (run [CallAddImage "nginx" (Js.ofZ 3)] w)) ≠ "")
    by (vm_compute; discriminate).
  split; [exact H|].
  exact (message_is_never_cleared _ initialState _ _ H).
Defined.

(** X3. Every image the page holds carries [active: true]: starting from
    a list of active images (the empty list of a fresh page), no sequence
    of events publishes an image whose flag is false.  The dashboard's
    "Inactive" label is therefore never rendered for a hook image. *)
Theorem published_images_are_active (e : Env) (s : State) (evs : list Event) :
  Forall (λ img, active img = true) (images s) →
  Forall (λ img, active img = true) (images (ui (run evs (mount e s)))).
Proof.
  intros Hs. destruct (mount_tame e s) as [H0 (_ & _ & Hi0)].
  destruct (run_tame evs _ H0) as [_ (_ & _ & Hi1)]. auto.
Qed.

Lemma published_images_are_active_witness :
  Forall (λ img, active img = true) (images initialState)
  ∧ Forall (λ img, active img = true)
      (images (ui (run (replicate 7 (Settle 1 Sample.registry))
                     (mount (Sample.envOf (Some 3%Z) (Some 3%Z)) initialState)))).
Proof.
  assert (H : Forall (λ img, active img = true) (images initialState))
    by apply Forall_nil_2.
  split; [exact H|].
  exact (published_images_are_active _ initialState _ H).
Defined.

Section Gate.

Lemma exec_reads {A} (m : Async A) s tr :
  reads m →
  isProcessing (exec m s tr).1.1 = isProcessing s
  ∧ match (exec m s tr).2 with
    | Finished _ => True
    | Suspended c k => isWrite c = false ∧ ∀ r, reads (k r)
    end.
Proof.
  intros Hm.
  destruct (exec_obeys (P := λ a, ∀ b, a ≠ SetIsProcessing b)
              (C := λ c, isWrite c = false)
              (λ s s', isProcessing s' = isProcessing s) anyValue m s tr)
    as [HR Hp]; [done|congruence| |exact Hm|].
  - intros a s0 Ha. destruct a; cbn; try done. by destruct (Ha b).
  - split; [done|]. destruct ((exec m s tr).2) as [[v|err]|c k]; done.
Qed.

Lemma reads_membersLoop n i acc : reads (membersLoop n i acc).
Proof.
  revert i acc. induction n as [|n IH]; intros i acc; [done|].
  cbn [membersLoop]. apply (obeys_bind anyValue); [|intros; apply IH].
  apply obeys_tryCatch; [|by cbn].
  apply (obeys_bind anyValue); [by apply obeys_await|]. intros host _.
  apply (obeys_bind anyValue); [by apply obeys_await|]. intros d _.
  cbn. by destruct (d.1.2).
Qed.

Lemma reads_imagesLoop n i acc : reads (imagesLoop n i acc).
Proof.
  revert i acc. induction n as [|n IH]; intros i acc; [done|].
  cbn [imagesLoop]. apply (obeys_bind anyValue); [|intros; apply IH].
  apply obeys_tryCatch; [|by cbn].
  apply (obeys_bind anyValue); [by apply obeys_await|]. intros imageName _.
  apply (obeys_bind anyValue); [by apply obeys_await|]. intros d _.
  cbn. by destruct (d.2).
Qed.

Lemma reads_fetchMembers e : reads (fetchMembers e).
Proof.
  destruct (fetchMembers_cases e) as [->|(c & n & p & _ & _ & _ & _ & ->)]; [done|].
  unfold reconcileMembers.
  apply (obeys_bind anyValue); [by apply obeys_await|]. intros _ _.
  apply (obeys_bind anyValue); [apply reads_membersLoop|]. intros l _. by cbn.
Qed.

Lemma reads_fetchImages e : reads (fetchImages e).
Proof.
  destruct (fetchImages_cases e) as [->|(c & n & p & _ & _ & _ & _ & ->)]; [done|].
  unfold reconcileImages.
  apply (obeys_bind anyValue); [by apply obeys_await|]. intros _ _.
  apply (obeys_bind anyValue); [apply reads_imagesLoop|]. intros l _. by cbn.
Qed.

Lemma writing_absent w id : tasks w !! id = None → ¬ writing w id.
Proof. intros Hid (t & Ht & _). congruence. Qed.

(** A stretch of reading code at a task number that holds no writer. *)
Lemma advance_reads id from stamp m w :
  gate w → (id < nextId w)%nat → ¬ writing w id → reads m →
  gate (advance id from stamp m w).
Proof.
  intros (Hfresh & Htasks & Huniq & Hflag) Hid Hnw Hm.
  destruct (exec_reads m (ui w) (trace w) Hm) as [Hproc Hp].
  assert (Hother : ∀ id', writing (advance id from stamp m w) id' ↔ writing w id').
  { intros id'. unfold writing, advance.
    destruct (exec m (ui w) (trace w)) as [[s tr] [r|c k]]; cbn in *.
    - split; intros (t & Ht & Hw).
      + apply lookup_delete_Some in Ht as [_ Ht]. eauto.
      + exists t. split; [|done]. apply lookup_delete_Some. split; [|done].
        intros ->. apply Hnw. by exists t.
    - split; intros (t & Ht & Hw).
      + apply lookup_insert_Some in Ht as [[<- <-]|[_ Ht]]; [|eauto].
        cbn in Hw. destruct Hp as [Hc _]. congruence.
      + exists t. split; [|done]. apply lookup_insert_Some. right. split; [|done].
        intros ->. apply Hnw. by exists t. }
  split; [by apply advance_fresh|]. split; [|split].
  - unfold advance. destruct (exec m (ui w) (trace w)) as [[s tr] [r|c k]]; cbn in *.
    + intros id' t Ht. apply lookup_delete_Some in Ht as [_ Ht].
      exact (Htasks _ _ Ht).
    + intros id' t Ht.
      apply lookup_insert_Some in Ht as [[<- <-]|[_ Ht]]; [|exact (Htasks _ _ Ht)].
      cbn. destruct Hp as [-> Hk]. exact Hk.
  - intros id1 id2 H1%Hother H2%Hother. by apply Huniq.
  - rewrite ui_advance, Hproc, Hflag. apply exist_proper. intros id'. by rewrite Hother.
Qed.

(** The rest of a mutation, run after its write settled. *)
Lemma advance_releases id from stamp m w t :
  gate w → tasks w !! id = Some t → isWrite (pending t) = true → releases m →
  gate (advance id from stamp m w).
Proof.
  intros (Hfresh & Htasks & Huniq & Hflag) Ht Hw Hm.
  assert (Hid : (id < nextId w)%nat).
  { destruct (decide (id < nextId w)%nat) as [|Hge]; [done|].
    rewrite Hfresh in Ht by lia. done. }
  pose proof (advance_fresh id from stamp m w Hid Hfresh) as Hfresh'.
  unfold advance in *. destruct (Hm (ui w) (trace w)) as (s' & tr' & r & Hex & Hs').
  rewrite Hex in *.
  assert (Hnone : ∀ id', ¬ writing
            (mkWorld (env w) s' (delete id (tasks w)) (nextId w) tr'
               (<[id := r]> (returned w))) id').
  { intros id' (t' & Ht' & Hw'). cbn in Ht'.
    apply lookup_delete_Some in Ht' as [Hne Ht'].
    apply Hne. apply Huniq; [by exists t|by exists t']. }
  split; [exact Hfresh'|]. split; [|split].
  - intros id' t' Ht'. cbn in Ht'. apply lookup_delete_Some in Ht' as [_ Ht'].
    exact (Htasks _ _ Ht').
  - intros id1 id2 H1. by destruct (Hnone id1).
  - cbn. rewrite Hs'. split; [done|]. intros [id' H']. by destruct (Hnone id').
Qed.

(** A call that either ends at once with the flag down or is suspended
    on a write with the flag up, made while no write is pending. *)
Lemma launch_submits from m w :
  gate w → isProcessing (ui w) = false →
  (∀ s tr, isProcessing s = false →
     (∃ s' tr' r, exec m s tr = (s', tr', Finished r) ∧ isProcessing s' = false)
     ∨ (∃ s' tr' req k, exec m s tr = (s', tr', Suspended (WriteContractAsync req) k)
                        ∧ isProcessing s' = true ∧ ∀ r, releases (k r))) →
  gate (launch from m w).
Proof.
  intros (Hfresh & Htasks & Huniq & Hflag) Hidle Hm.
  assert (Hnone : ∀ id, ¬ writing w id).
  { intros id Hw. assert (isProcessing (ui w) = true) by (apply Hflag; eauto).
    congruence. }
  pose proof (launch_fresh from m w Hfresh) as Hfresh'.
  unfold launch, advance in *. cbn [ui trace] in *.
  destruct (Hm (ui w) (trace w) Hidle)
    as [(s' & tr' & r & Hex & Hs')|(s' & tr' & req & k & Hex & Hs' & Hk)];
    rewrite Hex in *.
  - assert (Hnone' : ∀ id, ¬ writing
              (mkWorld (env w) s' (delete (nextId w) (tasks w)) (S (nextId w)) tr'
                 (<[nextId w := r]> (returned w))) id).
    { intros id (t & Ht & Hw). cbn in Ht. apply lookup_delete_Some in Ht as [_ Ht].
      apply (Hnone id). by exists t. }
    split; [exact Hfresh'|]. split; [|split].
    + intros id t Ht. cbn in Ht. apply lookup_delete_Some in Ht as [_ Ht].
      exact (Htasks _ _ Ht).
    + intros id1 id2 H1. by destruct (Hnone' id1).
    + cbn. rewrite Hs'. split; [done|]. intros [id H]. by destruct (Hnone' id).
  - assert (Honly : ∀ id, writing
              (mkWorld (env w) s'
                 (<[nextId w := mkTask from (refreshTrigger (ui w))
                                  (WriteContractAsync req) k]> (tasks w))
                 (S (nextId w)) tr' (returned w)) id → id = nextId w).
    { intros id (t & Ht & Hw). cbn in Ht.
      apply lookup_insert_Some in Ht as [[<- _]|[_ Ht]]; [done|].
      destruct (Hnone id). by exists t. }
    split; [exact Hfresh'|]. split; [|split].
    + intros id t Ht. cbn in Ht.
      apply lookup_insert_Some in Ht as [[<- <-]|[_ Ht]];
        [exact Hk|exact (Htasks _ _ Ht)].
    + intros id1 id2 H1%Honly H2%Honly. congruence.
    + cbn. rewrite Hs'. split; [|done]. intros _. exists (nextId w).
      eexists. split; [apply lookup_insert_eq|done].
Qed.

Lemma launch_reads from m w : gate w → reads m → gate (launch from m w).
Proof.
  intros Hw Hm. unfold launch. apply advance_reads; [|cbn; lia| |done].
  - destruct Hw as (Hfresh & Htasks & Huniq & Hflag).
    split; [|done]. intros id Hid. cbn in *. apply Hfresh. lia.
  - apply writing_absent. cbn. destruct Hw as (Hfresh & _). by apply Hfresh.
Qed.

Lemma runEffects_gate e0 s0 w : gate w → gate (runEffects e0 s0 w).
Proof.
  intros Hw. unfold runEffects.
  set (w1 := if decide _ then w else _).
  assert (Hw1 : gate w1)
    by (subst w1; destruct (decide _); [done|apply launch_reads, reads_fetchMembers; done]).
  clearbody w1. destruct (decide _); [done|]. by apply launch_reads, reads_fetchImages.
Qed.

Lemma exec_handleAddImage e form s tr :
  isProcessing s = false →
  (∃ s' tr' r, exec (handleAddImage e form) s tr = (s', tr', Finished r)
               ∧ isProcessing s' = false)
  ∨ (∃ s' tr' req k,
       exec (handleAddImage e form) s tr = (s', tr', Suspended (WriteContractAsync req) k)
       ∧ isProcessing s' = true ∧ ∀ r, releases (k r)).
Proof.
  intros Hs. unfold handleAddImage. destruct (_ || _); [left; by eexists _, _, _|].
  unfold addImage. destruct (canteenContract e) as [c|]; [destruct (writeContractAsync e)|].
  - destruct (Js.BigInt (Js.parseInt (addImageReplicas form))) as [z|err].
    + right. cbn -[String.append].
      eexists _, _, _, _. split; [reflexivity|]. split; [reflexivity|].
      intros [tx|err] s' tr'; cbn -[String.append]; by eexists _, _, _.
    + left. cbn -[String.append]. by eexists _, _, _.
  - left. cbn -[String.append]. by eexists _, _, _.
  - left. cbn -[String.append]. by eexists _, _, _.
Qed.

Lemma exec_handleRemoveImage e form s tr :
  isProcessing s = false →
  (∃ s' tr' r, exec (handleRemoveImage e form) s tr = (s', tr', Finished r)
               ∧ isProcessing s' = false)
  ∨ (∃ s' tr' req k,
       exec (handleRemoveImage e form) s tr
       = (s', tr', Suspended (WriteContractAsync req) k)
       ∧ isProcessing s' = true ∧ ∀ r, releases (k r)).
Proof.
  intros Hs. unfold handleRemoveImage. destruct (negb _); [left; by eexists _, _, _|].
  unfold removeImage.
  destruct (canteenContract e) as [c|]; [destruct (writeContractAsync e)|].
  - right. cbn -[String.append].
    eexists _, _, _, _. split; [reflexivity|]. split; [reflexivity|].
    intros [tx|err] s' tr'; cbn -[String.append]; by eexists _, _, _.
  - left. cbn -[String.append]. by eexists _, _, _.
  - left. cbn -[String.append]. by eexists _, _, _.
Qed.

Lemma reads_onLogs eventName h :
  onLogs eventName = Some h → reads (h;; Ret Js.Undefined).
Proof. destruct eventName; intros [= <-]; cbn; repeat split; done. Qed.

Lemma reads_refresh : reads (refresh;; Ret Js.Undefined).
Proof. cbn. repeat split; done. Qed.

Lemma gate_input a w :
  (∀ b, a ≠ SetIsProcessing b) →
  gate w → gate (mkWorld (env w) (apply a (ui w)) (tasks w) (nextId w) (trace w) (returned w)).
Proof.
  intros Ha (H1 & H2 & H3 & H4). split; [exact H1|]. split; [exact H2|].
  split; [exact H3|]. cbn.
  assert (isProcessing (apply a (ui w)) = isProcessing (ui w)) as ->; [|exact H4].
  destruct a; cbn; try done. by destruct (Ha b).
Qed.

Lemma pageStep_gate pe w : gate w → allowed w pe = true → gate (pageStep pe w).
Proof.
  intros Hw Hpe. destruct pe as [ev|i]; cbn [pageStep].
  - unfold step. apply runEffects_gate.
    destruct ev as [id o|eventName| |imageName numReplicas|imageName| | |e];
      cbn [handle]; cbn in Hpe; try done.
    + destruct (tasks w !! id) as [t|] eqn:Ht; [|done].
      pose proof Hw as (Hfresh & Htasks & _).
      pose proof (Htasks id t Ht) as Hk.
      destruct (isWrite (pending t)) eqn:Hwr.
      * by eapply advance_releases.
      * apply advance_reads; [done| | |done].
        -- destruct (decide (id < nextId w)%nat) as [|Hge]; [done|].
           rewrite Hfresh in Ht by lia. done.
        -- intros (t' & Ht' & Hw'). congruence.
    + destruct (onLogs eventName) as [h|] eqn:Hh; [|done].
      by eapply launch_reads, reads_onLogs.
    + apply launch_reads; [done|apply reads_refresh].
    + apply launch_submits; [done| |intros; by apply exec_handleAddImage].
      unfold addButtonDisabled in Hpe. by destruct (isProcessing (ui w)).
    + apply launch_submits; [done| |intros; by apply exec_handleRemoveImage].
      unfold removeButtonDisabled in Hpe. by destruct (isProcessing (ui w)).
  - apply gate_input; [|done]. by destruct i.
Qed.

Lemma pageRun_gate pes w : gate w → allAllowed pes w → gate (pageRun pes w).
Proof.
  revert w. induction pes as [|pe pes IH]; intros w Hw Hpes; [done|].
  destruct Hpes as [Hpe Hpes]. cbn. apply IH; [by apply pageStep_gate|done].
Qed.

Lemma mount_gate e s : isProcessing s = false → gate (mount e s).
Proof.
  intros Hs. unfold mount.
  apply launch_reads, reads_fetchImages. apply launch_reads, reads_fetchMembers.
  split; [by intros id _|]. split; [by intros id t Ht|].
  split; [by intros id1 id2 (t & Ht & _)|].
  cbn. rewrite Hs. split; [done|]. by intros (id & t & Ht & _).
Qed.

End Gate.

(** X5. Driven through the dashboard, the page has at most one registry
    write pending at any time, and [isProcessing] is true exactly while
    there is one.  The hook's functions do not check the flag; the
    guarantee comes from the [disabled] attributes, which let a form be
    submitted, and an input be typed in, only while the flag is false. *)
Theorem dashboard_keeps_one_write_pending (e : Env) (s : State) (pes : list PageEvent) :
  isProcessing s = false →
  allAllowed pes (mount e s) →
  let w := pageRun pes (mount e s) in
  (∀ id1 id2, writing w id1 → writing w id2 → id1 = id2)
  ∧ (isProcessing (ui w) = true ↔ ∃ id, writing w id).
Proof.
  intros Hs Hpes w. by destruct (pageRun_gate pes _ (mount_gate e s Hs) Hpes) as (_ & _ & H).
Qed.

(** Two submissions through the forms, with a notification in between. *)
Lemma dashboard_keeps_one_write_pending_witness :
  let pes := [Input (AddImageNameInput "nginx"); Hook SubmitAddForm;
              Hook (Notify ImageAdded); Hook (Settle 2 Sample.registry);
              Input (AddImageNameInput "redis"); Hook SubmitAddForm] in
  let w0 := mount (Sample.envOf (Some 2%Z) (Some 2%Z)) initialState in
  (isProcessing initialState = false ∧ allAllowed pes w0)
  ∧ (∀ id1 id2, writing (pageRun pes w0) id1 → writing (pageRun pes w0) id2 → id1 = id2).
Proof.
  intros pes w0.
  assert (Hpes : allAllowed pes w0) by (vm_compute; repeat split).
  split; [by split|].
  exact (proj1 (dashboard_keeps_one_write_pending _ initialState pes eq_refl Hpes)).
Defined.

(** * Beyond the claims: one call taken alone *)

(** X6. Without a resolved contract, or without the write function, a
    call of [addImage] or [removeImage] only sets the message
    ["Contract not available"]: the wallet is not invoked, the flag, the
    generation and the lists are left alone, no task stays suspended and
    the promise is fulfilled. *)
Theorem unavailable_registry_is_reported (w : World) (imageName : string)
    (numReplicas : Js.Number) :
  canteenContract (env w) = None ∨ writeContractAsync (env w) = false →
  (let w' := step (CallAddImage imageName numReplicas) w in
   ui w' = apply (SetMessage "Contract not available") (ui w)
   ∧ trace w' = trace w
   ∧ tasks w' !! nextId w = None
   ∧ returned w' !! nextId w = Some (Js.Fulfilled Js.Undefined))
  ∧ (let w' := step (CallRemoveImage imageName) w in
     ui w' = apply (SetMessage "Contract not available") (ui w)
     ∧ trace w' = trace w
     ∧ tasks w' !! nextId w = None
     ∧ returned w' !! nextId w = Some (Js.Fulfilled Js.Undefined)).
Proof.
  intros He.
  assert (Ha : addImage (env w) imageName numReplicas
               = (act (SetMessage "Contract not available");; Ret Js.Undefined)).
  { unfold addImage. destruct He as [-> | ->]; [done|].
    by destruct (canteenContract (env w)). }
  assert (Hr : removeImage (env w) imageName
               = (act (SetMessage "Contract not available");; Ret Js.Undefined)).
  { unfold removeImage. destruct He as [-> | ->]; [done|].
    by destruct (canteenContract (env w)). }
  split; unfold step; cbn [handle]; rewrite ?Ha, ?Hr;
    (rewrite runEffects_same; [|done|done]); cbn;
    rewrite app_nil_r, lookup_delete_eq, lookup_insert_eq; done.
Qed.

Lemma unavailable_registry_is_reported_witness :
  let e := mkEnv None (Some 2%Z) (Some 2%Z) (Some 1%nat) true Sample.encryption in
  let w := mount e initialState in
  (canteenContract (env w) = None ∨ writeContractAsync (env w) = false)
  ∧ message (ui (step (CallAddImage "nginx" (Js.ofZ 3)) w)) = "Contract not available".
Proof.
  intros e w.
  assert (H : canteenContract (env w) = None ∨ writeContractAsync (env w) = false)
    by (left; reflexivity).
  split; [exact H|].
  destruct (unavailable_registry_is_reported w "nginx" (Js.ofZ 3) H) as [(Hu & _) _].
  by rewrite Hu.
Defined.

(** X7. One call, at most one write: whatever the environment, the
    arguments and the wallet's answer, a run of [addImage],
    [removeImage], [handleAddImage] or [handleRemoveImage] invokes the
    write entry point at most once and leaves the two published lists as
    they were.  The page shows a change only after a later pass. *)
Theorem mutation_writes_at_most_once (o : Outside) (e : Env) (imageName : string)
    (numReplicas : Js.Number) (form s : State) (tr : list Effect) :
  Forall
    (λ m : Async Js.Value,
       let r := runWith o m s tr in
       (∃ reqs, writesOf (effects r) = writesOf tr ++ reqs ∧ (length reqs ≤ 1)%nat)
       ∧ members (final r) = members s ∧ images (final r) = images s)
    [addImage e imageName numReplicas; removeImage e imageName;
     handleAddImage e form; handleRemoveImage e form].
Proof.
  assert (Hadd : ∀ imageName numReplicas,
            let r := runWith o (addImage e imageName numReplicas) s tr in
            (∃ reqs, writesOf (effects r) = writesOf tr ++ reqs ∧ (length reqs ≤ 1)%nat)
            ∧ members (final r) = members s ∧ images (final r) = images s).
  { intros name n. cbv zeta. split.
    - rewrite addImage_writes. eexists. split; [reflexivity|].
      destruct (canteenContract e), (writeContractAsync e), (Js.BigInt n); cbn; lia.
    - rewrite addImage_run.
      destruct (canteenContract e), (writeContractAsync e); try done.
      cbv zeta. destruct (Js.BigInt n); [|done]. by destruct (walletWrite o _). }
  assert (Hrem : ∀ imageName,
            let r := runWith o (removeImage e imageName) s tr in
            (∃ reqs, writesOf (effects r) = writesOf tr ++ reqs ∧ (length reqs ≤ 1)%nat)
            ∧ members (final r) = members s ∧ images (final r) = images s).
  { intros name. cbv zeta. split.
    - rewrite removeImage_writes. eexists. split; [reflexivity|].
      destruct (canteenContract e), (writeContractAsync e); cbn; lia.
    - rewrite removeImage_run.
      destruct (canteenContract e), (writeContractAsync e); try done.
      cbv zeta. by destruct (walletWrite o _). }
  apply Forall_cons. split; [apply Hadd|].
  apply Forall_cons. split; [apply Hrem|].
  apply Forall_cons. split.
  { cbv zeta. rewrite handleAddImage_run. destruct (_ || _).
    - split; [|done]. exists []. split; [by rewrite app_nil_r|cbn; lia].
    - destruct (Hadd (addImageName form) (Js.parseInt (addImageReplicas form)))
        as (Hw & Hm & Hi).
      split; [exact Hw|]. split; [exact Hm|exact Hi]. }
  apply Forall_cons. split; [|apply Forall_nil_2].
  cbv zeta. rewrite handleRemoveImage_run. destruct (negb _).
  - split; [|done]. exists []. split; [by rewrite app_nil_r|cbn; lia].
  - destruct (Hrem (removeImageName form)) as (Hw & Hm & Hi).
    split; [exact Hw|]. split; [exact Hm|exact Hi].
Qed.

Lemma truthyString_true s : Js.truthyString s = true ↔ s ≠ "".
Proof. by destruct s. Qed.

(** X8. A form with an empty field submits nothing: with an empty image
    name or an empty replicas text, [handleAddImage] returns before
    calling the hook, and [handleRemoveImage] does with an empty name.
    The state, message included, the effects and the tasks are as before. *)
Theorem empty_form_field_submits_nothing (w : World) :
  (addImageName (ui w) = "" ∨ addImageReplicas (ui w) = "" →
   let w' := step SubmitAddForm w in
   ui w' = ui w ∧ env w' = env w ∧ trace w' = trace w
   ∧ tasks w' !! nextId w = None
   ∧ (∀ id, id ≠ nextId w → tasks w' !! id = tasks w !! id)
   ∧ returned w' !! nextId w = Some (Js.Fulfilled Js.Undefined))
  ∧ (removeImageName (ui w) = "" →
     let w' := step SubmitRemoveForm w in
     ui w' = ui w ∧ env w' = env w ∧ trace w' = trace w
     ∧ tasks w' !! nextId w = None
     ∧ (∀ id, id ≠ nextId w → tasks w' !! id = tasks w !! id)
     ∧ returned w' !! nextId w = Some (Js.Fulfilled Js.Undefined)).
Proof.
  split.
  - intros He.
    assert (Hm : handleAddImage (env w) (ui w) = Ret Js.Undefined).
    { unfold handleAddImage. destruct He as [-> | ->]; [done|].
      by destruct (Js.truthyString (addImageName (ui w))). }
    unfold step. cbn [handle]. rewrite Hm, launch_ret.
    rewrite runEffects_same; [|done|done]. cbn.
    rewrite lookup_insert_eq, lookup_delete_eq.
    repeat split. intros id Hid. by rewrite lookup_delete_ne.
  - intros He.
    assert (Hm : handleRemoveImage (env w) (ui w) = Ret Js.Undefined)
      by (unfold handleRemoveImage; by rewrite He).
    unfold step. cbn [handle]. rewrite Hm, launch_ret.
    rewrite runEffects_same; [|done|done]. cbn.
    rewrite lookup_insert_eq, lookup_delete_eq.
    repeat split. intros id Hid. by rewrite lookup_delete_ne.
Qed.

Lemma empty_form_field_submits_nothing_witness :
  let w := mount (Sample.envOf (Some 2%Z) (Some 2%Z)) initialState in
  (addImageName (ui w) = "" ∧ removeImageName (ui w) = "")
  ∧ ui (step SubmitAddForm w) = ui w
  ∧ ui (step SubmitRemoveForm w) = ui w.
Proof.
  intros w. split; [by split|].
  destruct (empty_form_field_submits_nothing w) as [Ha Hr].
  split; [apply Ha; by left|by apply Hr].
Defined.

(** X9. A submitted form is reset whatever becomes of the write: when the
    fields are filled in, a run of [handleAddImage] ends with the name
    empty and the replicas text back to ["3"], and a run of
    [handleRemoveImage] with the name empty, also when the contract is
    missing, the count is not a number or the wallet rejects; in each
    case a message is left for the user. *)
Theorem form_is_reset_whatever_the_write_does (o : Outside) (e : Env) (s : State)
    (tr : list Effect) :
  (addImageName s ≠ "" → addImageReplicas s ≠ "" →
   let r := runWith o (handleAddImage e s) s tr in
   addImageName (final r) = "" ∧ addImageReplicas (final r) = "3"
   ∧ removeImageName (final r) = removeImageName s
   ∧ isProcessing (final r) = match canteenContract e, writeContractAsync e with
                              | Some _, true => false
                              | _, _ => isProcessing s
                              end
   ∧ message (final r) ≠ "")
  ∧ (removeImageName s ≠ "" →
     let r := runWith o (handleRemoveImage e s) s tr in
     removeImageName (final r) = ""
     ∧ addImageName (final r) = addImageName s
     ∧ addImageReplicas (final r) = addImageReplicas s
     ∧ isProcessing (final r) = match canteenContract e, writeContractAsync e with
                                | Some _, true => false
                                | _, _ => isProcessing s
                                end
     ∧ message (final r) ≠ "").
Proof.
  split.
  - intros Hn%truthyString_true Hr%truthyString_true r. subst r.
    rewrite handleAddImage_run, Hn, Hr. cbn [negb orb]. cbv zeta. cbn [final].
    rewrite addImage_run.
    destruct (canteenContract e) as [c|]; [destruct (writeContractAsync e)|];
      cbv zeta; try done.
    destruct (Js.BigInt _); [|done]. by destruct (walletWrite o _).
  - intros Hn%truthyString_true r. subst r.
    rewrite handleRemoveImage_run, Hn. cbn [negb]. cbv zeta. cbn [final].
    rewrite removeImage_run.
    destruct (canteenContract e) as [c|]; [destruct (writeContractAsync e)|];
      cbv zeta; try done.
    by destruct (walletWrite o _).
Qed.

(** The wallet is offline: the write fails and the form is emptied all
    the same. *)
Lemma form_is_reset_whatever_the_write_does_witness :
  let e := Sample.envOf (Some 2%Z) (Some 2%Z) in
  let s := mkState "" false [] [] 0 "nginx" "3" "redis" in
  (addImageName s ≠ "" ∧ addImageReplicas s ≠ "" ∧ removeImageName s ≠ "")
  ∧ addImageName (final (runWith Sample.offline (handleAddImage e s) s [])) = ""
  ∧ removeImageName (final (runWith Sample.offline (handleRemoveImage e s) s [])) = "".
Proof.
  intros e s. split; [by repeat split|].
  destruct (form_is_reset_whatever_the_write_does Sample.offline e s []) as [Ha Hr].
  split.
  - exact (proj1 (Ha ltac:(done) ltac:(done))).
  - exact (proj1 (Hr ltac:(done))).
Defined.

(** * Beyond the claims: what a pass asks and what it leaves *)

Section Asking.
Context (o : Outside).

Lemma membersTurn_effects i acc s tr :
  effects (runWith o (membersTurn i acc) s tr) = tr ++ memberTurnEffects o i.
Proof.
  unfold membersTurn, memberTurnEffects. cbn.
  destruct (contractMembers o i) as [host|e]; cbn.
  - destruct (contractGetMemberDetails o host) as [[[imageName isActive] mem]|e]; cbn.
    + destruct isActive; cbn; by rewrite <- !app_assoc.
    + by rewrite <- !app_assoc.
  - by rewrite <- !app_assoc.
Qed.

Lemma membersLoop_effects n i acc s tr :
  effects (runWith o (membersLoop n i acc) s tr)
  = tr ++ concat (memberTurnEffects o <$> seq i n).
Proof.
  revert i acc tr. induction n as [|n IH]; intros i acc tr.
  - cbn. by rewrite app_nil_r.
  - cbn [membersLoop]. rewrite runWith_bind. cbv zeta.
    pose proof (membersTurn_effects i acc s tr) as He.
    destruct (membersTurn_run o i acc s tr) as (tr1 & Hrun & _).
    rewrite Hrun in *. cbn [settled final effects] in *. subst tr1.
    rewrite IH. cbn [seq fmap list_fmap concat]. by rewrite <- app_assoc.
Qed.

Lemma imagesTurn_effects i acc s tr :
  effects (runWith o (imagesTurn i acc) s tr) = tr ++ imageTurnEffects o i.
Proof.
  unfold imagesTurn, imageTurnEffects. cbn.
  destruct (contractImages o i) as [imageName|e]; cbn.
  - destruct (contractGetImageDetails o imageName) as [[[r d] isActive]|e]; cbn.
    + destruct isActive; cbn; by rewrite <- !app_assoc.
    + by rewrite <- !app_assoc.
  - by rewrite <- !app_assoc.
Qed.

Lemma imagesLoop_effects n i acc s tr :
  effects (runWith o (imagesLoop n i acc) s tr)
  = tr ++ concat (imageTurnEffects o <$> seq i n).
Proof.
  revert i acc tr. induction n as [|n IH]; intros i acc tr.
  - cbn. by rewrite app_nil_r.
  - cbn [imagesLoop]. rewrite runWith_bind. cbv zeta.
    pose proof (imagesTurn_effects i acc s tr) as He.
    destruct (imagesTurn_run o i acc s tr) as (tr1 & Hrun & _).
    rewrite Hrun in *. cbn [settled final effects] in *. subst tr1.
    rewrite IH. cbn [seq fmap list_fmap concat]. by rewrite <- app_assoc.
Qed.

Lemma reconcileMembers_effects count s tr :
  importEthers o = Js.Fulfilled () →
  runWith o (reconcileMembers count) s tr
  = mkOutcome (apply (SetMembers (activeMembers o count)) s)
      (tr ++ Invoked ImportEthers :: concat (memberTurnEffects o <$> seq 0 count))
      (Js.Fulfilled Js.Undefined).
Proof.
  intros Himport.
  destruct (reconcileMembers_run o count s tr Himport) as (tr' & Hrun & _).
  rewrite Hrun. f_equal.
  assert (He : effects (runWith o (reconcileMembers count) s tr) = tr') by by rewrite Hrun.
  rewrite <- He. unfold reconcileMembers. cbn [bind await runWith respond].
  rewrite Himport. cbn [bind]. rewrite runWith_bind. cbv zeta.
  pose proof (membersLoop_effects count 0 [] s (tr ++ [Invoked ImportEthers])) as Hl.
  destruct (membersLoop_run o count 0 [] s (tr ++ [Invoked ImportEthers]))
    as (tr1 & Hrun1 & _).
  rewrite Hrun1 in *. cbn in *. subst tr1. by rewrite app_nil_r, <- app_assoc.
Qed.

Lemma reconcileImages_effects count s tr :
  importEthers o = Js.Fulfilled () →
  runWith o (reconcileImages count) s tr
  = mkOutcome (apply (SetImages (activeImages o count)) s)
      (tr ++ Invoked ImportEthers :: concat (imageTurnEffects o <$> seq 0 count))
      (Js.Fulfilled Js.Undefined).
Proof.
  intros Himport.
  destruct (reconcileImages_run o count s tr Himport) as (tr' & Hrun & _).
  rewrite Hrun. f_equal.
  assert (He : effects (runWith o (reconcileImages count) s tr) = tr') by by rewrite Hrun.
  rewrite <- He. unfold reconcileImages. cbn [bind await runWith respond].
  rewrite Himport. cbn [bind]. rewrite runWith_bind. cbv zeta.
  pose proof (imagesLoop_effects count 0 [] s (tr ++ [Invoked ImportEthers])) as Hl.
  destruct (imagesLoop_run o count 0 [] s (tr ++ [Invoked ImportEthers]))
    as (tr1 & Hrun1 & _).
  rewrite Hrun1 in *. cbn in *. subst tr1. by rewrite app_nil_r, <- app_assoc.
Qed.

End Asking.

(** X10. What a pass asks the registry, in order: after the import of
    ethers, for each index from 0 up to the count, the key, then the
    details of that key only if the key came, with one [console.error]
    for an entry that failed; it never invokes the wallet.  When the
    import itself fails the function rejects at once: nothing is fetched
    and the state is untouched. *)
Theorem pass_asks_in_index_order (o : Outside) (e : Env) (c : ContractInfo) (p : nat)
    (nm ni : Z) (s : State) (tr : list Effect) :
  canteenContract e = Some c → ethersReadonlyProvider e = Some p →
  membersCount e = Some nm → nm ≠ 0%Z → imagesCount e = Some ni → ni ≠ 0%Z →
  (importEthers o = Js.Fulfilled () →
   effects (runWith o (fetchMembers e) s tr)
   = tr ++ Invoked ImportEthers :: concat (memberTurnEffects o <$> seq 0 (Z.to_nat nm))
   ∧ effects (runWith o (fetchImages e) s tr)
     = tr ++ Invoked ImportEthers :: concat (imageTurnEffects o <$> seq 0 (Z.to_nat ni))
   ∧ writesOf (effects (runWith o (fetchMembers e) s tr)) = writesOf tr
   ∧ writesOf (effects (runWith o (fetchImages e) s tr)) = writesOf tr)
  ∧ (∀ err, importEthers o = Js.Rejected err →
       runWith o (fetchMembers e) s tr
       = mkOutcome s (tr ++ [Invoked ImportEthers]) (Js.Rejected err)
       ∧ runWith o (fetchImages e) s tr
         = mkOutcome s (tr ++ [Invoked ImportEthers]) (Js.Rejected err)).
Proof.
  intros Hc Hp Hnm Hnm0 Hni Hni0.
  rewrite (fetchMembers_guarded e c nm p), (fetchImages_guarded e c ni p) by done.
  split.
  - intros Himport.
    destruct (reconcileMembers_run o (Z.to_nat nm) s tr Himport) as (trm & Hm & Hwm).
    destruct (reconcileImages_run o (Z.to_nat ni) s tr Himport) as (tri & Hi & Hwi).
    rewrite (reconcileMembers_effects o _ s tr Himport) in Hm |- *.
    rewrite (reconcileImages_effects o _ s tr Himport) in Hi |- *.
    injection Hm as Hm. injection Hi as Hi. cbn [effects].
    split; [done|]. split; [done|]. split; congruence.
  - intros err Himport. unfold reconcileMembers, reconcileImages.
    cbn [bind await runWith respond]. rewrite Himport. by cbn.
Qed.

Lemma pass_asks_in_index_order_witness :
  let e := Sample.envOf (Some 3%Z) (Some 3%Z) in
  (canteenContract e = Some Sample.canteen ∧ ethersReadonlyProvider e = Some 1%nat
   ∧ membersCount e = Some 3%Z ∧ 3%Z ≠ 0%Z ∧ imagesCount e = Some 3%Z
   ∧ importEthers Sample.registry = Js.Fulfilled ())
  ∧ effects (runWith Sample.registry (fetchMembers e) initialState [])
    = [Invoked ImportEthers;
       Invoked (Members 0); Invoked (GetMemberDetails "node-a");
       Invoked (Members 1); Invoked (GetMemberDetails "node-b");
       Invoked (Members 2); Invoked (GetMemberDetails "node-c")].
Proof.
  intros e. split; [by repeat split|].
  destruct (pass_asks_in_index_order Sample.registry e Sample.canteen 1 3 3 initialState []
              eq_refl eq_refl eq_refl ltac:(done) eq_refl ltac:(done)) as [H _].
  destruct (H eq_refl) as (-> & _). reflexivity.
Defined.

(** X11. A pass replaces its list wholesale and touches nothing else: the
    state after it is the state before with the one list set, so the
    list does not depend on what was published before, and a second pass
    against an unchanged registry leaves the state exactly as the first
    left it. *)
Theorem pass_replaces_list_wholesale (o : Outside) (e : Env) (c : ContractInfo) (p : nat)
    (nm ni : Z) (s s' : State) (tr tr' : list Effect) :
  canteenContract e = Some c → ethersReadonlyProvider e = Some p →
  membersCount e = Some nm → nm ≠ 0%Z → imagesCount e = Some ni → ni ≠ 0%Z →
  importEthers o = Js.Fulfilled () →
  let rm := runWith o (fetchMembers e) s tr in
  let ri := runWith o (fetchImages e) s tr in
  final rm = apply (SetMembers (members (final rm))) s
  ∧ final ri = apply (SetImages (images (final ri))) s
  ∧ members (final rm) = members (final (runWith o (fetchMembers e) s' tr'))
  ∧ images (final ri) = images (final (runWith o (fetchImages e) s' tr'))
  ∧ final (runWith o (fetchMembers e) (final rm) tr') = final rm
  ∧ final (runWith o (fetchImages e) (final ri) tr') = final ri.
Proof.
  intros Hc Hp Hnm Hnm0 Hni Hni0 Himport.
  rewrite (fetchMembers_guarded e c nm p), (fetchImages_guarded e c ni p) by done.
  cbv zeta. rewrite !(reconcileMembers_effects o _ _ _ Himport),
    !(reconcileImages_effects o _ _ _ Himport). by cbn.
Qed.

Lemma pass_replaces_list_wholesale_witness :
  let e := Sample.envOf (Some 3%Z) (Some 3%Z) in
  let stale := mkState "Image added! Tx: 0x9f3c" false ["node-z"] [] 4 "" "3" "" in
  (canteenContract e = Some Sample.canteen ∧ ethersReadonlyProvider e = Some 1%nat
   ∧ membersCount e = Some 3%Z ∧ 3%Z ≠ 0%Z ∧ imagesCount e = Some 3%Z
   ∧ importEthers Sample.registry = Js.Fulfilled ())
  ∧ members (final (runWith Sample.registry (fetchMembers e) stale []))
    = members (final (runWith Sample.registry (fetchMembers e) initialState [])).
Proof.
  intros e stale. split; [by repeat split|].
  destruct (pass_replaces_list_wholesale Sample.registry e Sample.canteen 1 3 3
              stale initialState [] [] eq_refl eq_refl eq_refl ltac:(done) eq_refl
              ltac:(done) eq_refl) as (_ & _ & H & _).
  exact H.
Defined.

(** X12. The member pass and the image pass started by one refresh do not
    interfere: whichever of the two is run to its end first, and
    whatever the registry answers to each, the page ends in the same
    state, with each list set by its own pass. *)
Theorem passes_of_two_collections_commute (w0 : World) (c : ContractInfo) (p : nat)
    (nm ni : Z) (oM oI : Outside) :
  canteenContract (env w0) = Some c → ethersReadonlyProvider (env w0) = Some p →
  membersCount (env w0) = Some nm → nm ≠ 0%Z →
  imagesCount (env w0) = Some ni → ni ≠ 0%Z →
  importEthers oM = Js.Fulfilled () → importEthers oI = Js.Fulfilled () →
  let w := step CallRefresh w0 in
  let m := S (nextId w0) in
  let i := S (S (nextId w0)) in
  ∃ k0, ∀ k1 k2 k3 k4,
    (k0 ≤ k1)%nat → (k0 ≤ k2)%nat → (k0 ≤ k3)%nat → (k0 ≤ k4)%nat →
    let membersFirst :=
      run (replicate k2 (Settle i oI)) (run (replicate k1 (Settle m oM)) w) in
    let imagesFirst :=
      run (replicate k4 (Settle m oM)) (run (replicate k3 (Settle i oI)) w) in
    ui membersFirst = ui imagesFirst
    ∧ members (ui membersFirst) = activeMembers oM (Z.to_nat nm)
    ∧ images (ui membersFirst) = activeImages oI (Z.to_nat ni).
Proof.
  intros Hc Hp Hnm Hnm0 Hni Hni0 HiM HiI w m i.
  destruct (step_refresh_spec w0 c nm ni p Hc Hp Hnm Hnm0 Hni Hni0)
    as (_ & _ & _ & (tM & HtM & _ & _ & HkM) & (tI & HtI & _ & _ & HkI) & _).
  fold w m in HtM. fold w i in HtI.
  destruct (overtaken_task_has_last_word w i m tI tM oI oM _ _
              ltac:(subst i m; lia) HtI HtM HkI HkM
              (quiet_reconcileImages _) (quiet_reconcileMembers _)) as [ka Ha].
  destruct (overtaken_task_has_last_word w m i tM tI oM oI _ _
              ltac:(subst i m; lia) HtM HtI HkM HkI
              (quiet_reconcileMembers _) (quiet_reconcileImages _)) as [kb Hb].
  exists (ka `max` kb)%nat. intros k1 k2 k3 k4 H1 H2 H3 H4.
  destruct (Ha k2 k1 ltac:(lia) ltac:(lia)) as (Ha3 & _ & _ & Ha4 & _).
  destruct (Hb k4 k3 ltac:(lia) ltac:(lia)) as (Hb3 & _ & _ & Hb4 & _).
  cbv zeta in *. rewrite Ha4, Ha3, Hb4, Hb3.
  repeat (rewrite ?(reconcileMembers_effects _ _ _ _ HiM),
            ?(reconcileImages_effects _ _ _ _ HiI); cbn [final]).
  by cbn.
Qed.

Lemma passes_of_two_collections_commute_witness :
  let w0 := mount (Sample.envOf (Some 3%Z) (Some 3%Z)) initialState in
  (canteenContract (env w0) = Some Sample.canteen
   ∧ ethersReadonlyProvider (env w0) = Some 1%nat
   ∧ membersCount (env w0) = Some 3%Z ∧ imagesCount (env w0) = Some 3%Z ∧ 3%Z ≠ 0%Z
   ∧ importEthers Sample.registry = Js.Fulfilled ()
   ∧ importEthers Sample.before = Js.Fulfilled ())
  ∧ ∃ k0, ∀ k, (k0 ≤ k)%nat →
      ui (run (replicate k (Settle 4 Sample.before))
            (run (replicate k (Settle 3 Sample.registry)) (step CallRefresh w0)))
      = ui (run (replicate k (Settle 3 Sample.registry))
              (run (replicate k (Settle 4 Sample.before)) (step CallRefresh w0))).
Proof.
  intros w0. split; [by repeat split|].
  destruct (passes_of_two_collections_commute w0 Sample.canteen 1 3 3
              Sample.registry Sample.before eq_refl eq_refl eq_refl ltac:(done)
              eq_refl ltac:(done) eq_refl eq_refl) as [k0 H].
  exists k0. intros k Hk. exact (proj1 (H k k k k Hk Hk Hk Hk)).
Defined.

(** * Beyond the claims: from a confirmed write to the list on screen *)

Section Confirmed.

Lemma images_pass_runs w id t o count :
  tasks w !! id = Some t →
  Await (pending t) (resume t) = reconcileImages count →
  importEthers o = Js.Fulfilled () →
  ∃ k0, ∀ k, (k0 ≤ k)%nat →
    ui (run (replicate k (Settle id o)) w)
    = apply (SetImages (activeImages o count)) (ui w).
Proof.
  intros Ht Hk Himport.
  exists (S (awaits o (resume t (respond o (pending t))))). intros k Hge.
  assert (Hq : ∀ r, quiet (resume t r)).
  { pose proof (quiet_reconcileImages count) as Hq. rewrite <- Hk in Hq. exact Hq. }
  rewrite (settle_runs id w t k Ht Hq) by lia. cbn [finishWith ui].
  rewrite (runWith_resumed o _ _ _ _ _ Hk).
  by rewrite (reconcileImages_effects o count _ _ Himport).
Qed.

Lemma step_addImage_suspends w c imageName numReplicas z :
  canteenContract (env w) = Some c → writeContractAsync (env w) = true →
  Js.BigInt numReplicas = Js.Fulfilled z →
  ∃ k,
    step (CallAddImage imageName numReplicas) w =
    mkWorld (env w)
      (apply (SetMessage "Adding image...") (apply (SetIsProcessing true) (ui w)))
      (<[nextId w := mkTask AddImage (refreshTrigger (ui w))
                       (WriteContractAsync (addRequest c imageName z)) k]> (tasks w))
      (S (nextId w))
      (trace w ++ [Invoked (WriteContractAsync (addRequest c imageName z))])
      (returned w)
    ∧ ∀ tx s tr,
        exec (k (Js.Fulfilled tx)) s tr
        = (apply (SetIsProcessing false)
             (apply (SetRefreshTrigger (λ prev, prev + 1)%nat)
                (apply (SetMessage ("Image added! Tx: " +:+ tx)) s)),
           tr ++ [CountRefetched], Finished (Js.Fulfilled Js.Undefined)).
Proof.
  intros Hc Hw Hz. unfold step. cbn [handle]. unfold launch, advance, addImage.
  rewrite Hc, Hw. cbn. rewrite Hz. cbn. rewrite !app_nil_r.
  eexists. split; [by rewrite runEffects_same|].
  intros tx s tr. cbn -[String.append]. by rewrite ?app_nil_r, <- ?app_assoc.
Qed.

(** The write of a pending [addImage] is confirmed: the task ends and
    both effects run again. *)
Lemma step_addImage_confirmed w c imageName numReplicas z o tx :
  canteenContract (env w) = Some c → writeContractAsync (env w) = true →
  Js.BigInt numReplicas = Js.Fulfilled z →
  walletWrite o (addRequest c imageName z) = Js.Fulfilled tx →
  step (Settle (nextId w) o) (step (CallAddImage imageName numReplicas) w) =
  launch FetchImages (fetchImages (env w))
    (launch FetchMembers (fetchMembers (env w))
       (mkWorld (env w)
          (apply (SetIsProcessing false)
             (apply (SetRefreshTrigger (λ prev, prev + 1)%nat)
                (apply (SetMessage ("Image added! Tx: " +:+ tx))
                   (apply (SetMessage "Adding image...")
                      (apply (SetIsProcessing true) (ui w))))))
          (delete (nextId w) (tasks w)) (S (nextId w))
          ((trace w ++ [Invoked (WriteContractAsync (addRequest c imageName z))])
             ++ [CountRefetched])
          (<[nextId w := Js.Fulfilled Js.Undefined]> (returned w)))).
Proof.
  intros Hc Hw Hz Htx.
  destruct (step_addImage_suspends w c imageName numReplicas z Hc Hw Hz) as (k & -> & Hk).
  unfold step. cbn [handle tasks]. rewrite lookup_insert_eq.
  cbn [origin startedAt pending resume respond]. rewrite Htx.
  unfold advance. cbn [ui trace]. rewrite Hk. cbn [env tasks nextId returned].
  rewrite delete_insert_eq.
  rewrite runEffects_bumped; [done|done|]. cbn. lia.
Qed.

End Confirmed.

(** X13. From a confirmed [addImage] to the list on screen.  The
    confirmation bumps the generation and asks for the images count
    again; the passes this starts still run with the count of that
    render, so the image pass among them visits the indices below the
    old count only.  When the new count arrives, the image effect alone
    runs again, and that pass, run to its end, publishes the active
    images of all indices below the new count. *)
Theorem added_image_shows_once_count_arrives (w : World) (c : ContractInfo) (p : nat)
    (n n' : Z) (imageName : string) (numReplicas : Js.Number) (z : Z) (tx : string)
    (o o' : Outside) :
  canteenContract (env w) = Some c → writeContractAsync (env w) = true →
  ethersReadonlyProvider (env w) = Some p →
  imagesCount (env w) = Some n → n ≠ 0%Z → n' ≠ 0%Z → n' ≠ n →
  Js.BigInt numReplicas = Js.Fulfilled z →
  walletWrite o (addRequest c imageName z) = Js.Fulfilled tx →
  importEthers o' = Js.Fulfilled () →
  let w2 := run [CallAddImage imageName numReplicas; Settle (nextId w) o] w in
  let e' := mkEnv (canteenContract (env w)) (membersCount (env w)) (Some n')
              (ethersReadonlyProvider (env w)) (writeContractAsync (env w))
              (encryptionContext (env w)) in
  let w3 := step (Rerender e') w2 in
  (CountRefetched ∈ trace w2)
  ∧ refreshTrigger (ui w2) = S (refreshTrigger (ui w))
  ∧ nextId w2 = S (S (S (nextId w)))
  ∧ nextId w3 = S (nextId w2)
  ∧ origin <$> tasks w3 !! nextId w2 = Some FetchImages
  ∧ ∃ k0, ∀ k, (k0 ≤ k)%nat →
      images (ui (run (replicate k (Settle (S (S (nextId w))) o')) w2))
      = activeImages o' (Z.to_nat n)
      ∧ images (ui (run (replicate k (Settle (nextId w2) o')) w3))
        = activeImages o' (Z.to_nat n').
Proof.
  intros Hc Hw Hp Hn Hn0 Hn0' Hne Hz Htx Himport w2 e' w3.
  assert (Hw2 : w2 = step (Settle (nextId w) o) (step (CallAddImage imageName numReplicas) w))
    by reflexivity.
  rewrite (step_addImage_confirmed w c imageName numReplicas z o tx Hc Hw Hz Htx) in Hw2.
  set (wf := mkWorld _ _ _ _ _ _) in Hw2.
  set (wm := launch FetchMembers (fetchMembers (env w)) wf) in Hw2.
  destruct (launch_fetchMembers_frame (env w) wf) as (Hem & Hum & Hnm & Hfm).
  destruct (launch_fetchImages_frame (env w) wm) as (Hei & Hui & Hni & Hfi).
  fold wm in Hem, Hum, Hnm, Hfm. rewrite <- Hw2 in Hei, Hui, Hni, Hfi.
  destruct (launch_trace_grows FetchMembers (fetchMembers (env w)) wf) as [trm Htm].
  destruct (launch_trace_grows FetchImages (fetchImages (env w)) wm) as [tri Hti].
  fold wm in Htm. rewrite <- Hw2 in Hti.
  destruct (launch_fetchImages_task (env w) wm c n p Hc Hn Hn0 Hp)
    as (tI & HtI & _ & _ & HkI).
  rewrite <- Hw2, Hnm in HtI. change (nextId wf) with (S (nextId w)) in *.
  assert (He2 : env w2 = env w) by (by rewrite Hei, Hem).
  assert (Hu2 : ui w2 = ui wf) by congruence.
  (* the render in which the new count arrives *)
  set (w2' := mkWorld e' (ui w2) (tasks w2) (nextId w2) (trace w2) (returned w2)).
  assert (Hw3 : w3 = launch FetchImages (fetchImages e') w2').
  { subst w3. unfold step. change (handle (Rerender e') w2) with w2'.
    unfold runEffects. rewrite He2.
    destruct (decide (membersDeps (env w) (ui w2) = membersDeps (env w2') (ui w2')))
      as [_|Hd]; [|by destruct Hd].
    destruct (decide (imagesDeps (env w) (ui w2) = imagesDeps (env w2') (ui w2')))
      as [Hd|_]; [|done].
    unfold imagesDeps in Hd. cbn in Hd. congruence. }
  destruct (launch_fetchImages_task e' w2' c n' p Hc eq_refl Hn0' Hp)
    as (tI' & HtI' & HoI' & _ & HkI').
  rewrite <- Hw3 in HtI'. change (nextId w2') with (nextId w2) in HtI'.
  destruct (launch_fetchImages_frame e' w2') as (_ & _ & Hn3 & _).
  rewrite <- Hw3 in Hn3. change (nextId w2') with (nextId w2) in Hn3.
  destruct (images_pass_runs w2 _ tI o' _ HtI HkI Himport) as [ka Ha].
  destruct (images_pass_runs w3 _ tI' o' _ HtI' HkI' Himport) as [kb Hb].
  split.
  { rewrite Hti, Htm. subst wf. cbn [trace].
    rewrite !elem_of_app. left. left. right. constructor. }
  split; [rewrite Hu2; subst wf; cbn; lia|].
  split; [congruence|]. split; [done|].
  split; [by rewrite HtI', <- HoI'|].
  exists (ka `max` kb)%nat. intros k Hk.
  rewrite Ha, Hb by lia. by cbn.
Qed.

(** The registry holds two images; a third, [postgres], is added and the
    count goes from 2 to 3. *)
Lemma added_image_shows_once_count_arrives_witness :
  let w := mount (Sample.envOf (Some 3%Z) (Some 2%Z)) initialState in
  (canteenContract (env w) = Some Sample.canteen ∧ writeContractAsync (env w) = true
   ∧ ethersReadonlyProvider (env w) = Some 1%nat ∧ imagesCount (env w) = Some 2%Z
   ∧ 2%Z ≠ 0%Z ∧ 3%Z ≠ 0%Z ∧ 3%Z ≠ 2%Z
   ∧ Js.BigInt (Js.ofZ 1) = Js.Fulfilled 1%Z
   ∧ walletWrite Sample.before (addRequest Sample.canteen "postgres" 1)
     = Js.Fulfilled "0x9f3c"
   ∧ importEthers Sample.before = Js.Fulfilled ())
  ∧ ∃ k0, ∀ k, (k0 ≤ k)%nat →
      images (ui (run (replicate k (Settle 5 Sample.before))
                    (step (Rerender (Sample.envOf (Some 3%Z) (Some 3%Z)))
                       (run [CallAddImage "postgres" (Js.ofZ 1); Settle 2 Sample.before] w))))
      = activeImages Sample.before 3.
Proof.
  intros w. split; [by repeat split|].
  destruct (added_image_shows_once_count_arrives w Sample.canteen 1 2 3 "postgres"
              (Js.ofZ 1) 1 "0x9f3c" Sample.before Sample.before
              eq_refl eq_refl eq_refl eq_refl ltac:(done) ltac:(done) ltac:(done)
              eq_refl eq_refl eq_refl) as (_ & _ & _ & _ & _ & k0 & H).
  exists k0. intros k Hk. exact (proj2 (H k Hk)).
Defined.
